(** * Proksi: a shadow-testing HTTP reverse proxy

    A shallow embedding of the route matcher and policy resolver
    (package [config]) and of the request handler and comparison job
    (package [main]), with the properties of the specification stated
    over them.

    Conventions.
    - Go [string]s are byte strings: Rocq's [string].
    - [uint64] values are [Z] with the wrap-around modulo [2^64] written
      out where the code does arithmetic on them.
    - Go maps are stdpp [gmap]s.  A [for ... range m] loop visits the keys
      in an order Go leaves unspecified; every function that ranges over a
      map takes the visiting order as an explicit list argument.
    - Calls into other libraries ([path.Match], [encoding/json],
      [sjson.Set], the HTTP clients, the storage sink) are parameters or
      recorded outcomes. *)

From Stdlib Require Import ZArith Ascii String Lia.
From stdpp Require Import base option list gmap strings fin_maps.

#[local] Set Warnings "-register-all".
#[local] Open Scope Z_scope.

(* ===================================================================== *)
(** * Go's [strings] package, the part the proxy uses                     *)
(* ===================================================================== *)

Module GoStrings.

(** [strings.ToUpper] and [strings.ToLower] on the ASCII letters; every
    other byte is kept (exact for ASCII input such as HTTP methods and
    header names). *)
Definition is_lower (c : ascii) : bool :=
  ((97 <=? nat_of_ascii c) && (nat_of_ascii c <=? 122))%nat.
Definition is_upper (c : ascii) : bool :=
  ((65 <=? nat_of_ascii c) && (nat_of_ascii c <=? 90))%nat.
Definition upper_byte (c : ascii) : ascii :=
  if is_lower c then ascii_of_nat (nat_of_ascii c - 32) else c.
Definition lower_byte (c : ascii) : ascii :=
  if is_upper c then ascii_of_nat (nat_of_ascii c + 32) else c.

Fixpoint ToUpper (s : string) : string :=
  match s with
  | EmptyString => EmptyString
  | String c s' => String (upper_byte c) (ToUpper s')
  end.

Fixpoint ToLower (s : string) : string :=
  match s with
  | EmptyString => EmptyString
  | String c s' => String (lower_byte c) (ToLower s')
  end.

(** [strings.HasPrefix(s, prefix)]. *)
Fixpoint HasPrefix (s prefix : string) : bool :=
  match prefix, s with
  | EmptyString, _ => true
  | String p prefix', String c s' =>
      if Ascii.eqb c p then HasPrefix s' prefix' else false
  | String _ _, EmptyString => false
  end.

(** [s[n:]] and [s[:n]]. *)
Fixpoint drop_bytes (n : nat) (s : string) : string :=
  match n, s with
  | O, _ => s
  | S n', String _ s' => drop_bytes n' s'
  | S _, EmptyString => EmptyString
  end.
Fixpoint take_bytes (n : nat) (s : string) : string :=
  match n, s with
  | O, _ => EmptyString
  | S n', String c s' => String c (take_bytes n' s')
  | S _, EmptyString => EmptyString
  end.

(** [strings.HasSuffix(s, suffix)]:
    [len(s) >= len(suffix) && s[len(s)-len(suffix):] == suffix]. *)
Definition HasSuffix (s suffix : string) : bool :=
  (String.length suffix <=? String.length s)%nat
  && String.eqb (drop_bytes (String.length s - String.length suffix) s) suffix.

(** [strings.TrimSuffix(s, suffix)]. *)
Definition TrimSuffix (s suffix : string) : string :=
  if HasSuffix s suffix
  then take_bytes (String.length s - String.length suffix) s
  else s.

(** [strings.Contains(s, substr)]. *)
Fixpoint Contains (s substr : string) : bool :=
  HasPrefix s substr
  || match s with
     | EmptyString => false
     | String _ s' => Contains s' substr
     end.

(** [strings.Trim(s, cutset)] for a cutset of one byte. *)
Fixpoint TrimLeft (s : string) (c : ascii) : string :=
  match s with
  | EmptyString => EmptyString
  | String a s' => if Ascii.eqb a c then TrimLeft s' c else s
  end.
Fixpoint TrimRight (s : string) (c : ascii) : string :=
  match s with
  | EmptyString => EmptyString
  | String a s' =>
      match TrimRight s' c with
      | EmptyString => if Ascii.eqb a c then EmptyString else String a EmptyString
      | r => String a r
      end
  end.
Definition Trim (s : string) (c : ascii) : string :=
  TrimRight (TrimLeft s c) c.

(** [strings.Cut(s, sep)] for a separator of one byte: the text before
    and after the first separator. *)
Fixpoint Cut (s : string) (sep : ascii) : option (string * string) :=
  match s with
  | EmptyString => None
  | String a s' =>
      if Ascii.eqb a sep then Some (EmptyString, s')
      else match Cut s' sep with
           | Some (before, after) => Some (String a before, after)
           | None => None
           end
  end.

(** [strings.Split(s, sep)] for a separator of one byte. *)
Fixpoint Split (s : string) (sep : ascii) : list string :=
  match s with
  | EmptyString => [EmptyString]
  | String a s' =>
      if Ascii.eqb a sep then EmptyString :: Split s' sep
      else match Split s' sep with
           | piece :: rest => String a piece :: rest
           | [] => [String a EmptyString]
           end
  end.

(** [strings.SplitN(s, sep, n)] for [n >= 0] and a separator of one
    byte: at most [n] pieces, the last one the unsplit remainder. *)
Fixpoint SplitN (s : string) (sep : ascii) (n : nat) : list string :=
  match n with
  | O => []
  | S O => [s]
  | S n' =>
      match Cut s sep with
      | Some (before, after) => before :: SplitN after sep n'
      | None => [s]
      end
  end.

End GoStrings.

(* ===================================================================== *)
(** * Package [config]                                                     *)
(* ===================================================================== *)

Module Config.
Import GoStrings.

Definition uint64_modulus : Z := 2 ^ 64.

(** Per-route overrides; the boolean fields are tokens
    (empty = inherit, ["enable"]/["disable"] = override). *)
Record RouteConfig := mkRouteConfig {
  rc_CompareHeaders : string;
  rc_CompareBody : string;
  rc_SkipHeaders : list string;
  rc_StoreReqBody : string;
  rc_StoreRespBodies : string;
  rc_SkipJSONPaths : list string;
  rc_TestProbability : Z
}.

Record GlobalConfig := mkGlobalConfig {
  gc_CompareHeaders : bool;
  gc_CompareBody : bool;
  gc_SkipHeaders : list string;
  gc_StoreReqBody : bool;
  gc_StoreRespBodies : bool;
  gc_SkipJSONPaths : list string;
  gc_TestProbability : Z
}.

(** A fully resolved route configuration. *)
Record ComputedRouteConfig := mkComputedRouteConfig {
  CompareHeaders : bool;
  CompareBody : bool;
  SkipHeaders : list string;
  StoreReqBody : bool;
  StoreRespBodies : bool;
  SkipJSONPaths : list string;
  TestProbability : Z
}.

Record ComputedRouteConfigs := mkComputedRouteConfigs {
  Routes : gmap string ComputedRouteConfig;
  Global : ComputedRouteConfig;
  SkipRoutes : gmap string bool
}.

(** The fields of [HTTPConfig] that the route engine reads. *)
Record HTTPConfig := mkHTTPConfig {
  cfg_GlobalConfig : GlobalConfig;
  cfg_RouteConfigs : gmap string RouteConfig;
  cfg_SkipRoutes : list string
}.

(** ** Route keys *)

Definition FormatRoute (method path : string) : string :=
  ToUpper method +:+ ":" +:+ path.

Definition ParseRoute (route : string) : string * string :=
  match SplitN route ":" 2 with
  | [m; p] => (m, p)
  | _ => ("*", route)
  end.

Definition isValidRoutePattern (path : string) : bool :=
  if String.eqb path EmptyString then false
  else if negb (HasPrefix path "/") && negb (String.eqb path "*") then false
  else if Contains path "**" then false
  else if HasSuffix path "*" && negb (HasSuffix path "/*")
          && negb (String.eqb path "*") then false
  else true.

(** ** Matching *)

(** The loop of [matchSegmentWildcards] that looks for a ["*"] segment
    other than the last one; [i] is the index of the head of [segs] and
    [n] the number of segments. *)
Fixpoint hasOtherWildcards_from (i n : nat) (segs : list string) : bool :=
  match segs with
  | [] => false
  | seg :: rest =>
      if String.eqb seg "*" && negb (Nat.eqb i (n - 1)) then true
      else hasOtherWildcards_from (S i) n rest
  end.
Definition hasOtherWildcards (segs : list string) : bool :=
  hasOtherWildcards_from 0 (length segs) segs.

(** The final loop of [matchSegmentWildcards]; the two lists have the
    same length when it runs. *)
Fixpoint compareSegments (configSegments requestSegments : list string) : bool :=
  match configSegments, requestSegments with
  | [], _ => true
  | configSeg :: cs, requestSeg :: rs =>
      if String.eqb configSeg "*" then compareSegments cs rs
      else if negb (String.eqb configSeg requestSeg) then false
      else compareSegments cs rs
  | _ :: _, [] => false
  end.

(** [strings.Split(strings.Trim(p, "/"), "/")] followed by the
    "empty path" adjustment. *)
Definition pathSegments (p : string) : list string :=
  match Split (Trim p "/") "/" with
  | [s] => if String.eqb s EmptyString then [] else [s]
  | segs => segs
  end.

(** The test for "a true trailing wildcard with no other wildcards". *)
Definition isTrailingWildcard (configPath : string) : bool :=
  HasSuffix configPath "/*"
  && negb (hasOtherWildcards (Split (Trim configPath "/") "/")).

Definition matchSegmentWildcards (requestPath configPath : string) : bool :=
  if isTrailingWildcard configPath
  then HasPrefix requestPath (TrimSuffix configPath "/*")
  else
    let requestSegments := pathSegments requestPath in
    let configSegments := pathSegments configPath in
    if negb (Nat.eqb (length requestSegments) (length configSegments)) then false
    else compareSegments configSegments requestSegments.

Section Matching.
(** Go's [path.Match pattern name], with its error dropped as
    [matchPath] does. *)
Variable path_Match : string → string → bool.

Definition matchPath (requestPath configPath : string) : bool :=
  if String.eqb requestPath configPath then true
  else if Contains configPath "*" then matchSegmentWildcards requestPath configPath
  else path_Match configPath requestPath.

Definition MatchRoute (requestRoute configRoute : string) : bool :=
  let '(requestMethod, requestPath) := ParseRoute requestRoute in
  let '(configMethod, configPath) := ParseRoute configRoute in
  if negb (String.eqb configMethod "*")
     && negb (String.eqb configMethod requestMethod) then false
  else matchPath requestPath configPath.

(** ** Lookup *)

(** [for configRoute, config := range Routes]: [order] lists the keys
    in the order this run of the loop visits them. *)
Fixpoint rangeRoutes (routes : gmap string ComputedRouteConfig)
    (order : list string) (route : string) : option ComputedRouteConfig :=
  match order with
  | [] => None
  | configRoute :: rest =>
      match routes !! configRoute with
      | Some config =>
          if MatchRoute route configRoute then Some config
          else rangeRoutes routes rest route
      | None => rangeRoutes routes rest route
      end
  end.

Definition GetRouteConfig (cc : ComputedRouteConfigs) (order : list string)
    (route : string) : ComputedRouteConfig :=
  match Routes cc !! route with
  | Some config => config
  | None =>
      match rangeRoutes (Routes cc) order route with
      | Some config => config
      | None => Global cc
      end
  end.

(** [for skipRoute := range SkipRoutes]. *)
Fixpoint rangeSkipRoutes (skips : gmap string bool)
    (order : list string) (route : string) : bool :=
  match order with
  | [] => false
  | skipRoute :: rest =>
      match skips !! skipRoute with
      | Some _ =>
          if MatchRoute route skipRoute then true
          else rangeSkipRoutes skips rest route
      | None => rangeSkipRoutes skips rest route
      end
  end.

Definition IsRouteSkipped (cc : ComputedRouteConfigs) (order : list string)
    (route : string) : bool :=
  if default false (SkipRoutes cc !! route) then true
  else rangeSkipRoutes (SkipRoutes cc) order route.

End Matching.

(** A visiting order of a map: each key once, in any order. *)
Definition RangeOrder {V} (m : gmap string V) (order : list string) : Prop :=
  order ≡ₚ (map_to_list m).*1.

(** ** Policy resolution *)

Definition computeGlobal (g : GlobalConfig) : ComputedRouteConfig :=
  {| CompareHeaders := gc_CompareHeaders g;
     CompareBody := gc_CompareBody g;
     SkipHeaders := [] ++ gc_SkipHeaders g;
     StoreReqBody := gc_StoreReqBody g;
     StoreRespBodies := gc_StoreRespBodies g;
     SkipJSONPaths := [] ++ gc_SkipJSONPaths g;
     TestProbability := gc_TestProbability g |}.

(** [if tok == "enable" { f = true } else if tok == "disable" { f = false }]. *)
Definition overrideBool (tok : string) (inherited : bool) : bool :=
  if String.eqb tok "enable" then true
  else if String.eqb tok "disable" then false
  else inherited.

(** The body of the loop over [RouteConfigs]. *)
Definition mergedConfig (global : ComputedRouteConfig) (routeConfig : RouteConfig)
    : ComputedRouteConfig :=
  {| CompareHeaders := overrideBool (rc_CompareHeaders routeConfig) (CompareHeaders global);
     CompareBody := overrideBool (rc_CompareBody routeConfig) (CompareBody global);
     SkipHeaders :=
       (if (0 <? length (rc_SkipHeaders routeConfig))%nat
        then ([] ++ SkipHeaders global) ++ rc_SkipHeaders routeConfig
        else [] ++ SkipHeaders global);
     StoreReqBody := overrideBool (rc_StoreReqBody routeConfig) (StoreReqBody global);
     StoreRespBodies := overrideBool (rc_StoreRespBodies routeConfig) (StoreRespBodies global);
     SkipJSONPaths :=
       (if (0 <? length (rc_SkipJSONPaths routeConfig))%nat
        then ([] ++ SkipJSONPaths global) ++ rc_SkipJSONPaths routeConfig
        else [] ++ SkipJSONPaths global);
     TestProbability :=
       (if 0 <? rc_TestProbability routeConfig
        then rc_TestProbability routeConfig
        else TestProbability global) |}.

(** The loop over [RouteConfigs] stores one merged entry under every key
    of the map, so its result does not depend on the visiting order. *)
Definition PrecomputeRouteConfigs (c : HTTPConfig) : ComputedRouteConfigs :=
  let global := computeGlobal (cfg_GlobalConfig c) in
  {| Routes := mergedConfig global <$> cfg_RouteConfigs c;
     Global := global;
     SkipRoutes := foldl (λ m skipRoute, <[skipRoute := true]> m) ∅ (cfg_SkipRoutes c) |}.

End Config.

(* ===================================================================== *)
(** * JSON values, as [encoding/json] hands them to the comparator        *)
(* ===================================================================== *)

Module Json.
Import GoStrings.

(** What [json.Unmarshal] stores in an [interface{}]: [nil], [bool],
    [float64], [string], [[]interface{}] and [map[string]interface{}].
    A number is given by an integer code of its float64 value (JSON has
    no NaN, so [==] on the floats is equality of codes). *)
Inductive json :=
  | JNull
  | JBool (b : bool)
  | JNum (n : Z)
  | JStr (s : string)
  | JArr (items : list json)
  | JObj (fields : gmap string json).

Fixpoint json_size (j : json) : nat :=
  match j with
  | JArr items => S (foldr (λ x n, json_size x + n)%nat 0%nat items)
  | JObj fields => S (map_fold (λ _ x n, json_size x + n)%nat 0%nat fields)
  | _ => 1%nat
  end.

Inductive json_atom := ANull | ABool (b : bool) | ANum (n : Z) | AStr (s : string).

#[global] Instance json_atom_eq_dec : EqDecision json_atom.
Proof. solve_decision. Defined.

(** A canonical first-order image of a value; object members come in
    the key order of the map, so two values have the same image exactly
    when they are equal. *)
Fixpoint json_encode (j : json) : gen_tree json_atom :=
  match j with
  | JNull => GenLeaf ANull
  | JBool b => GenLeaf (ABool b)
  | JNum n => GenLeaf (ANum n)
  | JStr s => GenLeaf (AStr s)
  | JArr items => GenNode 0 (map json_encode items)
  | JObj fields =>
      GenNode 1 (map_fold (λ k x acc,
                   GenNode 2 [GenLeaf (AStr k); json_encode x] :: acc) [] fields)
  end.

(** [reflect.DeepEqual] on two unmarshalled values: structural equality
    (object key order irrelevant, array order significant). *)
Definition DeepEqual (a b : json) : bool :=
  bool_decide (json_encode a = json_encode b).

Definition members (j : json) : gmap string json :=
  match j with
  | JObj fields => fields
  | _ => ∅
  end.

Definition member (k : string) (j : json) : json :=
  default (JObj ∅) (members j !! k).

(** Modelled from the spec: [sjson.Set] on the parse tree (the library
    is not part of the repository).  The spec has it "setting each
    listed dotted path to the sentinel (creating it if absent)": the
    path is followed key by key through objects, a missing member or a
    value that is not an object is replaced by a fresh object on the
    way, and the value at the end of the path is overwritten. *)
Fixpoint setPath (path : list string) (v : json) (j : json) : json :=
  match path with
  | [] => v
  | k :: rest => JObj (<[k := setPath rest v (member k j)]> (members j))
  end.


(** The segments of a dotted path. *)
Definition segments (path : string) : list string := Split path ".".


(** Two documents differ only at the listed paths: both arise from one
    document by writing arbitrary values at listed paths. *)
Inductive differOnlyAt (paths : list string) : json → json → Prop :=
  | doa_same a : differOnlyAt paths a a
  | doa_left p v a b :
      p ∈ paths → differOnlyAt paths a b →
      differOnlyAt paths (setPath (segments p) v a) b
  | doa_right p v a b :
      p ∈ paths → differOnlyAt paths a b →
      differOnlyAt paths a (setPath (segments p) v b).

End Json.

(* ===================================================================== *)
(** * Package [storage]                                                    *)
(* ===================================================================== *)

Module Storage.

(** A record written to the log storage. *)
Record Log := mkLog {
  URL : string;
  Method : string;
  Route : string;
  Headers : gmap string (list string);
  RequestBody : option string;
  MainUpstreamStatusCode : Z;
  TestUpstreamStatusCode : Z;
  MainUpstreamResponsePayload : option string;
  TestUpstreamResponsePayload : option string;
  ComparisonType : string;
  DifferentHeaders : list string
}.

End Storage.

(* ===================================================================== *)
(** * Package [main]                                                       *)
(* ===================================================================== *)

Module Main.
Import GoStrings Config Json Storage.

(** [http.Header]. *)
Abbreviation Header := (gmap string (list string)).

(** What reading a body to its end gives: all of it, or an error after
    a part of it. *)
Inductive ReadResult :=
  | ReadOk (data : string)
  | ReadErr (partial : string).

Definition bytesRead (r : ReadResult) : string :=
  match r with ReadOk data => data | ReadErr partial => partial end.

Record Request := mkRequest {
  req_Method : string;
  req_Path : string;       (* req.URL.Path *)
  req_URL : string;        (* req.URL.String() *)
  req_Header : Header;
  req_Body : ReadResult
}.

(** The answer of an upstream to [client.Do]. *)
Record Response := mkResponse {
  StatusCode : Z;
  resp_Header : Header;
  resp_Body : ReadResult
}.

(** ** Observable effects *)

Inductive StatusLabel :=
  | client_error
  | status_code (code : Z).   (* strconv.Itoa(code) *)

Inductive Event :=
  | EvHTTPReqCounter (status : StatusLabel) (method upstream route outcome : string)
  | EvHTTPReqDuration (method upstream route : string)
  | EvComparisonResults (route method kind : string)
  | EvRouteSkipCounter (route method reason : string)
  | EvLog (level msg : string)
  | EvStore (l : Log)          (* strg.Store(l) *)
  | EvPanic.

Definition isStore (e : Event) : bool :=
  match e with EvStore _ => true | _ => false end.

(** The records handed to the sink, in order. *)
Definition stored (evs : list Event) : list Log :=
  omap (λ e, match e with EvStore l => Some l | _ => None end) evs.

(** [http.ResponseWriter]: the header map, the status passed to
    [WriteHeader] if it was called, and the body bytes written. *)
Record ResponseWriter := mkResponseWriter {
  w_Header : Header;
  w_Status : option Z;
  w_Body : string
}.

Definition emptyWriter : ResponseWriter :=
  {| w_Header := ∅; w_Status := None; w_Body := EmptyString |}.

(** The status line the client gets: [net/http] sends 200 when the
    handler returns without calling [WriteHeader]. *)
Definition clientStatus (w : ResponseWriter) : Z := default 200 (w_Status w).

(** [http.Error(w, msg, code)]. *)
Definition http_Error (w : ResponseWriter) (msg : string) (code : Z) : ResponseWriter :=
  {| w_Header := <["X-Content-Type-Options" := ["nosniff"]]>
                   (<["Content-Type" := ["text/plain; charset=utf-8"]]>
                      (delete "Content-Length" (w_Header w)));
     w_Status := Some code;
     w_Body := w_Body w +:+ msg +:+ String "010" EmptyString |}.

(** [strings.Join(values, sep)]. *)
Fixpoint Join (values : list string) (sep : string) : string :=
  match values with
  | [] => EmptyString
  | [v] => v
  | v :: rest => v +:+ sep +:+ Join rest sep
  end.

(** The loop that copies the main response headers to the client. *)
Definition copyHeaders (w : ResponseWriter) (h : Header) : ResponseWriter :=
  {| w_Header :=
       ((λ headerValue,
          match headerValue with
          | [v] => [v]
          | _ => ["[" +:+ Join headerValue "," +:+ "]"]
          end) <$> h) ∪ w_Header w;
     w_Status := w_Status w;
     w_Body := w_Body w |}.

Definition WriteHeader (w : ResponseWriter) (code : Z) : ResponseWriter :=
  {| w_Header := w_Header w; w_Status := Some code; w_Body := w_Body w |}.

Definition Write (w : ResponseWriter) (data : string) : ResponseWriter :=
  {| w_Header := w_Header w; w_Status := w_Status w; w_Body := w_Body w +:+ data |}.

(** ** The comparison job *)

Record upstreamTestJob := mkJob {
  j_req : Request;
  j_route : string;
  j_routeConfig : ComputedRouteConfig;
  j_reqBodyBuffer : string;
  j_mainRes : Response;
  j_mainResBody : string      (* the bytes behind mainResBodyReader *)
}.

(** ** The job queue: a buffered Go channel *)

Record Chan := mkChan {
  ch_cap : nat;                        (* make(chan Job, QueueSize) *)
  ch_buf : list upstreamTestJob;       (* queued jobs, oldest first *)
  ch_recvq : nat;                      (* workers parked in a receive *)
  ch_taken : list upstreamTestJob      (* jobs received by workers so far *)
}.

(** One attempt of [ch <- job]: the job goes to a parked receiver if
    there is one, otherwise into the buffer if it has room; otherwise
    the send cannot proceed and the sender stays parked ([None]). *)
Definition chansend (c : Chan) (job : upstreamTestJob) : option Chan :=
  if (0 <? ch_recvq c)%nat then
    Some {| ch_cap := ch_cap c; ch_buf := ch_buf c;
            ch_recvq := (ch_recvq c - 1)%nat;
            ch_taken := ch_taken c ++ [job] |}
  else if (length (ch_buf c) <? ch_cap c)%nat then
    Some {| ch_cap := ch_cap c; ch_buf := ch_buf c ++ [job];
            ch_recvq := ch_recvq c; ch_taken := ch_taken c |}
  else None.

(** One attempt of a worker's [job := <-ch]: the oldest queued job, or
    the worker parks. *)
Definition chanrecv (c : Chan) : Chan * option upstreamTestJob :=
  match ch_buf c with
  | job :: rest =>
      ({| ch_cap := ch_cap c; ch_buf := rest; ch_recvq := ch_recvq c;
          ch_taken := ch_taken c ++ [job] |}, Some job)
  | [] =>
      ({| ch_cap := ch_cap c; ch_buf := []; ch_recvq := S (ch_recvq c);
          ch_taken := ch_taken c |}, None)
  end.

Record server := mkServer {
  job : Chan;
  reqCounter : Z
}.

(** ** The sampler *)

(** [s.reqCounter%100 < routeConfig.TestProbability-1] on [uint64]. *)
Definition inBucket (reqCounter TestProbability : Z) : bool :=
  reqCounter mod 100 <? (TestProbability - 1) mod uint64_modulus.

(** [atomic.AddUint64(&s.reqCounter, 1)]. *)
Definition AddUint64 (counter delta : Z) : Z := (counter + delta) mod uint64_modulus.

(** ** Header comparison *)

(** The loop over [mainValues] that compares values position by
    position; it runs when both lists have the same length. *)
Fixpoint valuesDiffer (mainValues testValues : list string) : bool :=
  match mainValues, testValues with
  | mainValue :: ms, testValue :: ts =>
      if negb (String.eqb mainValue testValue) then true else valuesDiffer ms ts
  | _, _ => false
  end.

Definition skipHeadersMap (skipHeaders : list string) : gmap string bool :=
  foldl (λ m header, <[ToLower header := true]> m) ∅ skipHeaders.

(** [for key, mainValues := range mainHeaders]. *)
Fixpoint rangeMainHeaders (skip : gmap string bool) (mainHeaders testHeaders : Header)
    (order : list string) (differentHeaders : list string) : list string :=
  match order with
  | [] => differentHeaders
  | key :: rest =>
      match mainHeaders !! key with
      | None => rangeMainHeaders skip mainHeaders testHeaders rest differentHeaders
      | Some mainValues =>
          if default false (skip !! ToLower key)
          then rangeMainHeaders skip mainHeaders testHeaders rest differentHeaders
          else
            match testHeaders !! key with
            | None =>
                rangeMainHeaders skip mainHeaders testHeaders rest (differentHeaders ++ [key])
            | Some testValues =>
                if negb (length mainValues =? length testValues)%nat
                then rangeMainHeaders skip mainHeaders testHeaders rest (differentHeaders ++ [key])
                else if valuesDiffer mainValues testValues
                then rangeMainHeaders skip mainHeaders testHeaders rest (differentHeaders ++ [key])
                else rangeMainHeaders skip mainHeaders testHeaders rest differentHeaders
            end
      end
  end.

(** [for key := range testHeaders]. *)
Fixpoint rangeTestHeaders (skip : gmap string bool) (mainHeaders testHeaders : Header)
    (order : list string) (differentHeaders : list string) : list string :=
  match order with
  | [] => differentHeaders
  | key :: rest =>
      match testHeaders !! key with
      | None => rangeTestHeaders skip mainHeaders testHeaders rest differentHeaders
      | Some _ =>
          if default false (skip !! ToLower key)
          then rangeTestHeaders skip mainHeaders testHeaders rest differentHeaders
          else
            match mainHeaders !! key with
            | None =>
                rangeTestHeaders skip mainHeaders testHeaders rest (differentHeaders ++ [key])
            | Some _ => rangeTestHeaders skip mainHeaders testHeaders rest differentHeaders
            end
      end
  end.

(** [compareHeaders]; [mainOrder] and [testOrder] are the orders in
    which the two [range] loops visit the header names. *)
Definition compareHeaders (skipHeaders : list string) (mainOrder testOrder : list string)
    (mainHeaders testHeaders : Header) : list string :=
  let skip := skipHeadersMap skipHeaders in
  rangeTestHeaders skip mainHeaders testHeaders testOrder
    (rangeMainHeaders skip mainHeaders testHeaders mainOrder []).

(** [h.Get("content-type")]: the first value under the canonical key. *)
Definition Get_content_type (h : Header) : string :=
  match h !! "Content-Type" with
  | Some (v :: _) => v
  | _ => EmptyString
  end.

(** ** Body comparison *)

Definition dummyBytesEqual (a b : string) : option bool := Some (String.eqb a b).

(** Outcomes of the calls a job makes, and the header visiting orders
    of this run. *)
Record DoWorld := mkDoWorld {
  dw_seekReqOk : bool;
  dw_newRequestOk : bool;
  dw_testDo : option Response;       (* [None]: transport error *)
  dw_seekMainOk : bool;
  dw_readMainOk : bool;
  dw_storeOk : bool;
  dw_mainHeaderOrder : list string;
  dw_testHeaderOrder : list string
}.

Section Job.
(** [json.Unmarshal] into an [interface{}]; [None] is a parse error. *)
Variable Unmarshal : string → option json.
(** [sjson.Set json path value] with a string value; [None] is an error. *)
Variable sjson_Set : string → string → string → option string.

(** A comparator returns [(bool, error)]: [None] is the error. *)
Definition JSONBytesEqual (a b : string) : option bool :=
  match Unmarshal a with
  | None => None
  | Some json1 =>
      match Unmarshal b with
      | None => None
      | Some json2 => Some (DeepEqual json2 json1)
      end
  end.

(** The loop over [SkipJSONPaths]; [None] is the [panic(err)]. *)
Fixpoint maskBodies (paths : list string) (srcBodyStr testBodyStr : string)
    : option (string * string) :=
  match paths with
  | [] => Some (srcBodyStr, testBodyStr)
  | path :: rest =>
      match sjson_Set srcBodyStr path "useless" with
      | None => None
      | Some srcBodyStr' =>
          match sjson_Set testBodyStr path "useless" with
          | None => None
          | Some testBodyStr' => maskBodies rest srcBodyStr' testBodyStr'
          end
      end
  end.

Definition baseLog (j : upstreamTestJob) (testStatus : Z) (kind : string) : Log :=
  {| URL := req_URL (j_req j);
     Method := req_Method (j_req j);
     Route := j_route j;
     Headers := req_Header (j_req j);
     RequestBody :=
       (if StoreReqBody (j_routeConfig j) then Some (j_reqBodyBuffer j) else None);
     MainUpstreamStatusCode := StatusCode (j_mainRes j);
     TestUpstreamStatusCode := testStatus;
     MainUpstreamResponsePayload := None;
     TestUpstreamResponsePayload := None;
     ComparisonType := kind;
     DifferentHeaders := [] |}.

Definition withDifferentHeaders (l : Log) (names : list string) : Log :=
  {| URL := URL l; Method := Method l; Route := Route l; Headers := Headers l;
     RequestBody := RequestBody l;
     MainUpstreamStatusCode := MainUpstreamStatusCode l;
     TestUpstreamStatusCode := TestUpstreamStatusCode l;
     MainUpstreamResponsePayload := MainUpstreamResponsePayload l;
     TestUpstreamResponsePayload := TestUpstreamResponsePayload l;
     ComparisonType := ComparisonType l;
     DifferentHeaders := names |}.

Definition withPayloads (l : Log) (mainBody testBody : string) : Log :=
  {| URL := URL l; Method := Method l; Route := Route l; Headers := Headers l;
     RequestBody := RequestBody l;
     MainUpstreamStatusCode := MainUpstreamStatusCode l;
     TestUpstreamStatusCode := TestUpstreamStatusCode l;
     MainUpstreamResponsePayload := Some mainBody;
     TestUpstreamResponsePayload := Some testBody;
     ComparisonType := ComparisonType l;
     DifferentHeaders := DifferentHeaders l |}.

(** [err = strg.Store(log)] and the error branch after it. *)
Definition store (w : DoWorld) (l : Log) : list Event :=
  EvStore l ::
  (if dw_storeOk w then []
   else [EvLog "error" "Error in logging the request into Storage"]).

(** The end of [Do]: choice of the comparator, comparison, JSON path
    masking, and the verdict. *)
Definition compareBodies (j : upstreamTestJob) (w : DoWorld) (testStatus : Z)
    (mainResBody testResBody : string) : list Event :=
  let method := req_Method (j_req j) in
  let mainResContentType := Get_content_type (resp_Header (j_mainRes j)) in
  let responseSkipPath :=
    String.eqb (ToLower mainResContentType) "application/json"
    || String.eqb (ToLower mainResContentType) "application/ld+json" in
  let comparator := if responseSkipPath then JSONBytesEqual else dummyBytesEqual in
  match comparator mainResBody testResBody with
  | None => [EvLog "error" "error in response equality check"]
  | Some equalBody =>
      let verdict (equalBody : bool) (mainResBody testResBody : string) :=
        if equalBody then
          [EvLog "info" "Equal body response";
           EvComparisonResults (j_route j) method "identical"]
        else
          [EvLog "warn" "NOT equal body response";
           EvComparisonResults (j_route j) method "body_diff"]
          ++ store w
               (let l := baseLog j testStatus "body_diff" in
                if StoreRespBodies (j_routeConfig j)
                then withPayloads l mainResBody testResBody else l) in
      if negb equalBody && responseSkipPath then
        if testStatus =? StatusCode (j_mainRes j) then
          match maskBodies (SkipJSONPaths (j_routeConfig j)) mainResBody testResBody with
          | None => [EvPanic]
          | Some (srcBodyStr, testBodyStr) =>
              match JSONBytesEqual srcBodyStr testBodyStr with
              | None =>
                  [EvLog "error" "error in JSON equality check of body request"]
              | Some equalBody' => verdict equalBody' srcBodyStr testBodyStr
              end
          end
        else verdict equalBody mainResBody testResBody
      else verdict equalBody mainResBody testResBody
  end.

Definition Do (j : upstreamTestJob) (w : DoWorld) : list Event :=
  let method := req_Method (j_req j) in
  if negb (dw_seekReqOk w) then
    [EvLog "error" "error in seeking the body reader to the first of the stream"]
  else if negb (dw_newRequestOk w) then
    [EvLog "error" "error in creating the request to the test service"]
  else
    EvHTTPReqDuration method "test_upstream" (j_route j) ::
    match dw_testDo w with
    | None =>
        [EvHTTPReqCounter client_error method "test_upstream" (j_route j) "error";
         EvLog "error" "error in doing the request to the test service"]
    | Some testRes =>
        EvHTTPReqCounter (status_code (StatusCode testRes)) method
          "test_upstream" (j_route j) "success" ::
        if negb (dw_seekMainOk w) then
          [EvLog "error" "error in seeking to the beginning of the main service response"]
        else if negb (dw_readMainOk w) then
          [EvLog "error" "error in reading the body request of main service"]
        else
          match resp_Body testRes with
          | ReadErr _ =>
              [EvLog "error" "error in reading the body request of test service"]
          | ReadOk testResBody =>
              let mainResBody := j_mainResBody j in
              if negb (StatusCode testRes =? StatusCode (j_mainRes j)) then
                [EvLog "warn" "Different status code from services";
                 EvComparisonResults (j_route j) method "status_diff"]
                ++ store w (baseLog j (StatusCode testRes) "status_diff")
              else
                let differentHeaders :=
                  if CompareHeaders (j_routeConfig j)
                  then compareHeaders (SkipHeaders (j_routeConfig j))
                         (dw_mainHeaderOrder w) (dw_testHeaderOrder w)
                         (resp_Header (j_mainRes j)) (resp_Header testRes)
                  else [] in
                if CompareHeaders (j_routeConfig j)
                   && (0 <? length differentHeaders)%nat then
                  [EvLog "warn" "Different response headers from services";
                   EvComparisonResults (j_route j) method "header_diff"]
                  ++ store w
                       (let l := withDifferentHeaders
                                   (baseLog j (StatusCode testRes) "header_diff")
                                   differentHeaders in
                        (* both readers are at their end here: the
                           second ReadAll of each gives no bytes *)
                        if StoreRespBodies (j_routeConfig j)
                        then withPayloads l EmptyString EmptyString else l)
                else compareBodies j w (StatusCode testRes) mainResBody testResBody
          end
    end.

End Job.

(** ** The request handler *)

(** Outcomes of the calls the handler makes, and the visiting orders of
    its two route lookups. *)
Record HandleWorld := mkHandleWorld {
  hw_skipOrder : list string;
  hw_routeOrder : list string;
  hw_newRequestOk : bool;
  hw_mainDo : option Response;       (* [None]: transport error *)
  hw_clientWriteOk : bool
}.

(** The handler either returns, or stays parked in [s.job <- job]. *)
Inductive HandleOutcome :=
  | Returned (w : ResponseWriter) (s : server) (evs : list Event)
  | BlockedOnSend (w : ResponseWriter) (s : server) (evs : list Event)
      (pending : upstreamTestJob).

(** [s.job <- job], the last statement of the sampled branch. *)
Definition enqueue (writer : ResponseWriter) (s : server) (evs : list Event)
    (pending : upstreamTestJob) : HandleOutcome :=
  match chansend (job s) pending with
  | Some ch => Returned writer {| job := ch; reqCounter := reqCounter s |} evs
  | None => BlockedOnSend writer s evs pending
  end.

Section Handler.
Variable path_Match : string → string → bool.
(** [config.ComputedConfigs]. *)
Variable ComputedConfigs : ComputedRouteConfigs.

(** The branch for a skipped route. *)
Definition handleSkipped (s : server) (hw : HandleWorld) (writer : ResponseWriter)
    (req : Request) (route : string) : HandleOutcome :=
  let method := req_Method req in
  let evs := [EvRouteSkipCounter route method "config"] in
  if negb (hw_newRequestOk hw) then
    Returned (http_Error writer "Failed to create upstream request" 500) s evs
  else
    let evs := evs ++ [EvHTTPReqDuration method "main_upstream" route] in
    match hw_mainDo hw with
    | None =>
        Returned (http_Error writer "Failed to reach upstream" 502) s
          (evs ++ [EvHTTPReqCounter client_error method "main_upstream" route "skipped"])
    | Some mainRes =>
        let writer := WriteHeader (copyHeaders writer (resp_Header mainRes))
                        (StatusCode mainRes) in
        let writer :=
          if hw_clientWriteOk hw
          then Write writer (bytesRead (resp_Body mainRes)) else writer in
        Returned writer s
          (evs ++ [EvHTTPReqCounter (status_code (StatusCode mainRes)) method
                     "main_upstream" route "skipped"])
    end.

Definition handle (s : server) (hw : HandleWorld) (writer : ResponseWriter)
    (req : Request) : HandleOutcome :=
  let method := req_Method req in
  let route := FormatRoute method (req_Path req) in
  if IsRouteSkipped path_Match ComputedConfigs (hw_skipOrder hw) route then
    handleSkipped s hw writer req route
  else
    match req_Body req with
    | ReadErr _ =>
        Returned writer s [EvLog "error" "error in reading the request body"]
    | ReadOk reqBody =>
        if negb (hw_newRequestOk hw) then
          Returned writer s
            [EvLog "error" "error in creating the request to the main service"]
        else
          let evs := [EvHTTPReqDuration method "main_upstream" route] in
          match hw_mainDo hw with
          | None =>
              Returned writer s
                (evs ++ [EvHTTPReqCounter client_error method "main_upstream" route "error";
                         EvLog "error" "error in doing the request to the main service"])
          | Some mainRes =>
              let evs := evs ++ [EvHTTPReqCounter (status_code (StatusCode mainRes))
                                   method "main_upstream" route "success"] in
              let writer := WriteHeader (copyHeaders writer (resp_Header mainRes))
                              (StatusCode mainRes) in
              match resp_Body mainRes with
              | ReadErr _ =>
                  Returned writer s
                    (evs ++ [EvLog "error"
                       "error in copying the main upstream response into the byte buffer"])
              | ReadOk mainResBody =>
                  if negb (hw_clientWriteOk hw) then
                    Returned writer s
                      (evs ++ [EvLog "error"
                         "error in writing the response to the response writer"])
                  else
                    let writer := Write writer mainResBody in
                    let routeConfig :=
                      GetRouteConfig path_Match ComputedConfigs (hw_routeOrder hw) route in
                    let s := {| job := job s;
                                reqCounter := AddUint64 (reqCounter s) 1 |} in
                    if inBucket (reqCounter s) (TestProbability routeConfig) then
                      enqueue writer s evs
                        {| j_req := req; j_route := route; j_routeConfig := routeConfig;
                           j_reqBodyBuffer := reqBody; j_mainRes := mainRes;
                           j_mainResBody := mainResBody |}
                    else
                      Returned writer s
                        (evs ++ [EvLog "info" "Sending request without test upstream";
                                 EvHTTPReqCounter (status_code (StatusCode mainRes)) method
                                   "test_upstream" route "skipped_probability"])
              end
          end
    end.

End Handler.

End Main.

(* ===================================================================== *)
(** * The contracts as the specification words them                      *)
(* ===================================================================== *)

Module Spec.
Import GoStrings Config Json Storage Main.

Inductive Resolution :=
  | Skip
  | Policy (p : ComputedRouteConfig).

Section Resolve.
Variable path_Match : string → string → bool.

(** "Test each route-config pattern in config order; first match
    yields its EffectivePolicy." *)
Fixpoint firstMatch (route_configs : list (string * ComputedRouteConfig))
    (route : string) : option ComputedRouteConfig :=
  match route_configs with
  | [] => None
  | (pattern, policy) :: rest =>
      if MatchRoute path_Match route pattern then Some policy
      else firstMatch rest route
  end.

(** The lookup contract [resolve], over the patterns in the order the
    configuration lists them. *)
Definition resolve (skip_routes : list string)
    (route_configs : list (string * ComputedRouteConfig))
    (global : ComputedRouteConfig) (route : string) : Resolution :=
  if existsb (MatchRoute path_Match route) skip_routes then Skip
  else Policy (default global (firstMatch route_configs route)).

(** What the handler does for a request: [IsRouteSkipped], then
    [GetRouteConfig]. *)
Definition routeLookup (cc : ComputedRouteConfigs) (skipOrder routeOrder : list string)
    (route : string) : Resolution :=
  if IsRouteSkipped path_Match cc skipOrder route then Skip
  else Policy (GetRouteConfig path_Match cc routeOrder route).
End Resolve.

(** The tri-valued override of a boolean field. *)
Definition TriValued (token : string) (global effective : bool) : Prop :=
  (token = EmptyString → effective = global)
  ∧ (token = "enable" → effective = true)
  ∧ (token = "disable" → effective = false).

(** The job got as far as comparing: every call before succeeded. *)
Definition reachesComparison (w : DoWorld) (testRes : Response)
    (testResBody : string) : Prop :=
  dw_seekReqOk w = true ∧ dw_newRequestOk w = true
  ∧ dw_testDo w = Some testRes ∧ dw_seekMainOk w = true
  ∧ dw_readMainOk w = true ∧ resp_Body testRes = ReadOk testResBody.

Definition isJSONContentType (h : gmap string (list string)) : Prop :=
  ToLower (Get_content_type h) = "application/json"
  ∨ ToLower (Get_content_type h) = "application/ld+json".

(** A string of ASCII bytes; on these [ToLower] and [ToUpper] of
    [GoStrings] are [strings.ToLower] and [strings.ToUpper]. *)
Fixpoint isASCII (s : string) : bool :=
  match s with
  | EmptyString => true
  | String c s' => (N_of_ascii c <? 128)%N && isASCII s'
  end.

(** A content type, written in ASCII, that is not one of the two JSON
    types. *)
Definition isOtherContentType (h : gmap string (list string)) : Prop :=
  isASCII (Get_content_type h) = true ∧ ¬ isJSONContentType h.

(** The header comparison is switched on and reports a name. *)
Definition headersDiverge (j : upstreamTestJob) (w : DoWorld) (testRes : Response)
    : Prop :=
  CompareHeaders (j_routeConfig j) = true
  ∧ compareHeaders (SkipHeaders (j_routeConfig j))
      (dw_mainHeaderOrder w) (dw_testHeaderOrder w)
      (resp_Header (j_mainRes j)) (resp_Header testRes) ≠ [].

Section Bodies.
Variable Unmarshal : string → option json.
Variable sjson_Set : string → string → string → option string.

(** The semantic comparison of two JSON bodies finds a divergence: the
    two bodies parse to different values, the masking loop rewrites
    both, and the rewritten bodies parse to different values again. *)
Definition jsonBodiesDiverge (j : upstreamTestJob) (testResBody : string) : Prop :=
  ∃ vm vt main' test' vm' vt',
    Unmarshal (j_mainResBody j) = Some vm ∧ Unmarshal testResBody = Some vt
    ∧ vm ≠ vt
    ∧ maskBodies sjson_Set (SkipJSONPaths (j_routeConfig j))
        (j_mainResBody j) testResBody = Some (main', test')
    ∧ Unmarshal main' = Some vm' ∧ Unmarshal test' = Some vt'
    ∧ vm' ≠ vt'.

(** The semantic comparison finds none: the two bodies parse, and they
    parse to the same value either as they are or after the masking loop
    has rewritten both. *)
Definition jsonBodiesAgree (j : upstreamTestJob) (testResBody : string) : Prop :=
  ∃ vm vt,
    Unmarshal (j_mainResBody j) = Some vm ∧ Unmarshal testResBody = Some vt
    ∧ (vm = vt
       ∨ ∃ main' test' v',
           maskBodies sjson_Set (SkipJSONPaths (j_routeConfig j))
             (j_mainResBody j) testResBody = Some (main', test')
           ∧ Unmarshal main' = Some v' ∧ Unmarshal test' = Some v').

(** The body comparison finds a divergence: semantically for a JSON
    content type, byte for byte for another one. *)
Definition bodiesDiverge (j : upstreamTestJob) (testResBody : string) : Prop :=
  (isJSONContentType (resp_Header (j_mainRes j)) ∧ jsonBodiesDiverge j testResBody)
  ∨ (isOtherContentType (resp_Header (j_mainRes j)) ∧ j_mainResBody j ≠ testResBody).

Definition bodiesAgree (j : upstreamTestJob) (testResBody : string) : Prop :=
  (isJSONContentType (resp_Header (j_mainRes j)) ∧ jsonBodiesAgree j testResBody)
  ∨ (isOtherContentType (resp_Header (j_mainRes j)) ∧ j_mainResBody j = testResBody).

(** The comparison a record reports is the first one that diverges, in
    the order status, headers, body. *)
Definition firstDivergence (j : upstreamTestJob) (w : DoWorld)
    (testRes : Response) (testResBody : string) (l : Log) : Prop :=
  (ComparisonType l = "status_diff"
   ∧ StatusCode testRes ≠ StatusCode (j_mainRes j))
  ∨ (ComparisonType l = "header_diff"
     ∧ StatusCode testRes = StatusCode (j_mainRes j)
     ∧ headersDiverge j w testRes
     ∧ DifferentHeaders l
       = compareHeaders (SkipHeaders (j_routeConfig j))
           (dw_mainHeaderOrder w) (dw_testHeaderOrder w)
           (resp_Header (j_mainRes j)) (resp_Header testRes))
  ∨ (ComparisonType l = "body_diff"
     ∧ StatusCode testRes = StatusCode (j_mainRes j)
     ∧ ¬ headersDiverge j w testRes
     ∧ j_mainResBody j ≠ testResBody
     ∧ (isJSONContentType (resp_Header (j_mainRes j)) →
        jsonBodiesDiverge j testResBody)).


End Bodies.

(** What both loops of [compareHeaders] keep true of the names collected
    so far. *)
Definition reportable (skip : gmap string bool)
    (mainHeaders testHeaders : gmap string (list string)) (name : string) : Prop :=
  name ∈ dom mainHeaders ∪ dom testHeaders
  ∧ default false (skip !! ToLower name) = false.

End Spec.

(* ===================================================================== *)
(** * Concrete configurations, requests and responses                     *)
(* ===================================================================== *)

Module Examples.
Import GoStrings Config Json Storage Main Spec.

(** An override that sets the test probability and nothing else. *)
Definition withProbability (p : Z) : RouteConfig :=
  {| rc_CompareHeaders := EmptyString; rc_CompareBody := EmptyString;
     rc_SkipHeaders := [];
     rc_StoreReqBody := EmptyString; rc_StoreRespBodies := EmptyString;
     rc_SkipJSONPaths := [];
     rc_TestProbability := p |}.

Definition defaultGlobal : GlobalConfig :=
  {| gc_CompareHeaders := true; gc_CompareBody := false; gc_SkipHeaders := [];
     gc_StoreReqBody := false; gc_StoreRespBodies := true; gc_SkipJSONPaths := [];
     gc_TestProbability := 100 |}.

(** The configuration of [TestHTTPConfig_PrecomputeRouteConfigs]. *)
Definition testGlobal : GlobalConfig :=
  {| gc_CompareHeaders := true; gc_CompareBody := false;
     gc_SkipHeaders := ["Date"; "Server"];
     gc_StoreReqBody := false; gc_StoreRespBodies := true;
     gc_SkipJSONPaths := ["timestamp"]; gc_TestProbability := 100 |}.

Definition postUsers : RouteConfig :=
  {| rc_CompareHeaders := "disable"; rc_CompareBody := EmptyString;
     rc_SkipHeaders := ["Authorization"];
     rc_StoreReqBody := "enable"; rc_StoreRespBodies := "enable";
     rc_SkipJSONPaths := ["password"]; rc_TestProbability := 75 |}.

Definition getOrders : RouteConfig :=
  {| rc_CompareHeaders := EmptyString; rc_CompareBody := EmptyString;
     rc_SkipHeaders := ["Cookie"];
     rc_StoreReqBody := EmptyString; rc_StoreRespBodies := EmptyString;
     rc_SkipJSONPaths := ["internal_id"]; rc_TestProbability := 50 |}.

Definition testConfig : HTTPConfig :=
  {| cfg_GlobalConfig := testGlobal;
     cfg_RouteConfigs := {[ "POST:/api/users" := postUsers;
                            "GET:/api/orders/*" := getOrders ]};
     cfg_SkipRoutes := ["GET:/health"; "*:/metrics"] |}.

(** A configuration file whose [route_configs] lists a general pattern
    before a specific one. *)
Definition generalFirst : list (string * RouteConfig) :=
  [("GET:/u/*", withProbability 10); ("GET:/u/me", withProbability 50)].

(** A configuration file whose [route_configs] lists the specific
    pattern first. *)
Definition specificFirst : list (string * RouteConfig) :=
  [("GET:/u/*/p", withProbability 50); ("GET:/u/*", withProbability 10)].

(** Loading keeps [route_configs] in a Go map. *)
Definition loaded (route_configs : list (string * RouteConfig)) : HTTPConfig :=
  {| cfg_GlobalConfig := defaultGlobal;
     cfg_RouteConfigs := list_to_map route_configs;
     cfg_SkipRoutes := [] |}.

(** The effective policies in the order of the configuration file. *)
Definition inConfigOrder (route_configs : list (string * RouteConfig))
    : list (string * ComputedRouteConfig) :=
  prod_map id (mergedConfig (computeGlobal defaultGlobal)) <$> route_configs.

Definition policyWithProbability (p : Z) : ComputedRouteConfig :=
  mergedConfig (computeGlobal defaultGlobal) (withProbability p).

(** The cases of [TestMatchRoute] that do not end in [path.Match]. *)
Definition matchRouteCases : list (string * string * bool) :=
  [("GET:/api/users", "GET:/api/users", true);
   ("POST:/api/users", "GET:/api/users", false);
   ("GET:/health", "*:/health", true);
   ("POST:/health", "*:/health", true);
   ("GET:/api/users/123", "GET:/api/users/*", true);
   ("GET:/api/users/123/profile/settings", "GET:/api/users/*", true);
   ("GET:/api/orders", "GET:/api/users/*", false);
   ("GET:/api/users/123/profile", "GET:/api/users/*/profile", true);
   ("GET:/api/users/abc/profile", "GET:/api/users/*/profile", true);
   ("GET:/api/users/profile", "GET:/api/users/*/profile", false);
   ("GET:/api/users/123/456/profile", "GET:/api/users/*/profile", false);
   ("GET:/api/users/123/posts/456", "GET:/api/users/*/posts/*", true);
   ("GET:/api/users/abc/posts/def", "GET:/api/users/*/posts/*", true);
   ("GET:/api/users/123/posts", "GET:/api/users/*/posts/*", false);
   ("GET:/api/users/123/posts/456/comments", "GET:/api/users/*/posts/*", false);
   ("GET:/api/public/v1/users", "GET:/api/*/v1/users", true);
   ("GET:/api/public/v2/users", "GET:/api/*/v1/users", false);
   ("GET:/anything", "GET:/*", true);
   ("GET:/api/users", "GET:/*/*", true);
   ("GET:/api", "GET:/*/*", false);
   ("GET:", "GET:", true);
   ("GET:/test", "GET:*", true);
   ("GET:/", "GET:/*", true);
   ("GET:/users/123", "GET:/users/[0-9]*", false);
   ("GET:/users/abc", "GET:/users/[0-9]*", false)].

(** The cases of [TestParseRoute]. *)
Definition parseRouteCases : list (string * (string * string)) :=
  [("GET:/api/users", ("GET", "/api/users"));
   ("POST:/", ("POST", "/"));
   ("PUT:/api/v1/users/123", ("PUT", "/api/v1/users/123"));
   ("/api/users", ("*", "/api/users"));
   (EmptyString, ("*", EmptyString));
   ("GET:", ("GET", EmptyString));
   ("GET:/api:test", ("GET", "/api:test"))].

(** A request and the outcomes of a run in which every call succeeds. *)
Definition exampleRequest : Request :=
  {| req_Method := "GET"; req_Path := "/a"; req_URL := "/a?x=1";
     req_Header := {[ "Accept" := ["*/*"] ]};
     req_Body := ReadOk EmptyString |}.

Definition mainAnswer : Response :=
  {| StatusCode := 200;
     resp_Header := {[ "Content-Type" := ["application/json"] ]};
     resp_Body := ReadOk "{}" |}.

Definition allCallsSucceed : HandleWorld :=
  {| hw_skipOrder := []; hw_routeOrder := []; hw_newRequestOk := true;
     hw_mainDo := Some mainAnswer; hw_clientWriteOk := true |}.

Definition globalOnly : ComputedRouteConfigs :=
  PrecomputeRouteConfigs (loaded []).

Definition queuedJob : upstreamTestJob :=
  {| j_req := exampleRequest; j_route := "GET:/a";
     j_routeConfig := Global globalOnly; j_reqBodyBuffer := EmptyString;
     j_mainRes := mainAnswer; j_mainResBody := "{}" |}.

(** A queue of capacity 1 that holds one job; no worker is waiting. *)
Definition fullQueue : Chan :=
  {| ch_cap := 1; ch_buf := [queuedJob]; ch_recvq := 0; ch_taken := [] |}.

Definition busyServer : server := {| job := fullQueue; reqCounter := 0 |}.

(** Two answers that differ in three headers, two of them skipped. *)
Definition skippedHeaders : list string := ["Date"; "X-Trace"].

Definition mainAnswerHeaders : gmap string (list string) :=
  {[ "Date" := ["A"]; "X-Trace" := ["m"]; "Etag" := ["v1"] ]}.

Definition testAnswerHeaders : gmap string (list string) :=
  {[ "Date" := ["B"]; "X-Trace" := ["n"]; "Etag" := ["v2"] ]}.

(** JSON text written with ['] for the quotation mark. *)
Fixpoint jsonText (s : string) : string :=
  match s with
  | EmptyString => EmptyString
  | String c s' => String (if Ascii.eqb c "'" then "034"%char else c) (jsonText s')
  end.

Definition mainBodyText : string := jsonText "{'v':1,'ts':'2025-01-01'}".
Definition testBodyText : string := jsonText "{'v':1,'ts':'2025-02-02'}".
Definition maskedBodyText : string := jsonText "{'v':1,'ts':'useless'}".

Definition mainTree : json := JObj {[ "v" := JNum 1; "ts" := JStr "2025-01-01" ]}.
Definition testTree : json := JObj {[ "v" := JNum 1; "ts" := JStr "2025-02-02" ]}.
Definition maskedTree : json := JObj {[ "v" := JNum 1; "ts" := JStr "useless" ]}.

(** A parser and a path setter that know the three documents above. *)
Definition tableUnmarshal (data : string) : option json :=
  if String.eqb data mainBodyText then Some mainTree
  else if String.eqb data testBodyText then Some testTree
  else if String.eqb data maskedBodyText then Some maskedTree
  else None.

Definition tableSet (doc path value : string) : option string :=
  if (String.eqb doc mainBodyText || String.eqb doc testBodyText
      || String.eqb doc maskedBodyText)
     && String.eqb path "ts" && String.eqb value "useless"
  then Some maskedBodyText else None.

Definition jsonPolicy : ComputedRouteConfig :=
  {| CompareHeaders := true; CompareBody := false; SkipHeaders := ["Date"];
     StoreReqBody := true; StoreRespBodies := true; SkipJSONPaths := ["ts"];
     TestProbability := 100 |}.

Definition jsonAnswer (status : Z) (date body : string) : Response :=
  {| StatusCode := status;
     resp_Header := {[ "Content-Type" := ["application/json"]; "Date" := [date] ]};
     resp_Body := ReadOk body |}.

Definition jsonJob : upstreamTestJob :=
  {| j_req := exampleRequest; j_route := "GET:/a"; j_routeConfig := jsonPolicy;
     j_reqBodyBuffer := EmptyString; j_mainRes := jsonAnswer 200 "Mon" mainBodyText;
     j_mainResBody := mainBodyText |}.

(** A run of the job in which every call succeeds and the test upstream
    gives [answer]. *)
Definition testAnswers (answer : Response) : DoWorld :=
  {| dw_seekReqOk := true; dw_newRequestOk := true; dw_testDo := Some answer;
     dw_seekMainOk := true; dw_readMainOk := true; dw_storeOk := true;
     dw_mainHeaderOrder := ["Content-Type"; "Date"];
     dw_testHeaderOrder := ["Date"; "Content-Type"] |}.

(** Documents with a time stamp and a nested identifier, their values,
    and a parser and a path setter that know the nine documents of
    [knownRecords]: the setter writes the new value into the text, as
    [sjson.Set] does on these documents. *)
Definition recordText (ts id : string) : string :=
  jsonText ("{'v':1,'ts':'" +:+ ts +:+ "','meta':{'id':'" +:+ id +:+ "'}}").

Definition recordTree (ts id : string) : json :=
  JObj {[ "v" := JNum 1; "ts" := JStr ts; "meta" := JObj {[ "id" := JStr id ]} ]}.

Definition knownRecords : list (string * string) :=
  list_prod ["2025-01-01"; "2025-02-02"; "useless"] ["a1"; "b2"; "useless"].

Definition findRecord (data : string) : option (string * string) :=
  List.find (λ r, String.eqb data (recordText r.1 r.2)) knownRecords.

Definition recordUnmarshal (data : string) : option json :=
  (λ r, recordTree r.1 r.2) <$> findRecord data.

Definition recordSet (doc path value : string) : option string :=
  match findRecord doc with
  | Some (ts, id) =>
      if String.eqb path "ts" then Some (recordText value id)
      else if String.eqb path "meta.id" then Some (recordText ts value)
      else None
  | None => None
  end.




End Examples.

(* ===================================================================== *)
(** * Package [logging]                                                    *)
(* ===================================================================== *)

Module Logging.
Import GoStrings.

(** [zapcore.Level], the levels the proxy can be set to. *)
Inductive Level := DebugLevel | InfoLevel | WarnLevel | ErrorLevel | FatalLevel.

(** [parseLogLevel]: the level, and the error if there is one. *)
Definition parseLogLevel (logLevel : string) : Level * option string :=
  let name := ToLower logLevel in
  if String.eqb name "debug" then (DebugLevel, None)
  else if String.eqb name "info" then (InfoLevel, None)
  else if String.eqb name "warn" || String.eqb name "warning" then (WarnLevel, None)
  else if String.eqb name "error" then (ErrorLevel, None)
  else if String.eqb name "fatal" then (FatalLevel, None)
  else (InfoLevel, Some "supported levels are: debug, info, warn, error, fatal").

(** [InitializeLogger]: [L] is the level of the package logger,
    [buildOk] the outcome of [config.Build()]; the result is the new
    logger level and whether an error is returned. *)
Definition InitializeLogger (L : Level) (logLevel : string) (buildOk : bool)
    : Level * bool :=
  match parseLogLevel logLevel with
  | (_, Some _) => (L, true)
  | (level, None) => if buildOk then (level, false) else (L, true)
  end.

End Logging.

(* ===================================================================== *)
(** * Package [config]: loading                                            *)
(* ===================================================================== *)

Module Startup.
Import GoStrings Config.

(** The deprecated top-level fields of [HTTPConfig]. *)
Record LegacyFields := mkLegacyFields {
  lg_SkipJSONPaths : list string;
  lg_TestProbability : Z;
  lg_LogResponsePayload : bool;
  lg_CompareHeaders : bool
}.

(** [defaultHTTP.GlobalConfig] and the legacy fields of [defaultHTTP]. *)
Definition defaultHTTP_GlobalConfig : GlobalConfig :=
  {| gc_CompareHeaders := true; gc_CompareBody := false; gc_SkipHeaders := [];
     gc_StoreReqBody := false; gc_StoreRespBodies := true; gc_SkipJSONPaths := [];
     gc_TestProbability := 100 |}.

Definition defaultHTTP_Legacy : LegacyFields :=
  {| lg_SkipJSONPaths := []; lg_TestProbability := 100;
     lg_LogResponsePayload := true; lg_CompareHeaders := true |}.

Definition globalConfigIsDefault (g : GlobalConfig) : bool :=
  Bool.eqb (gc_CompareHeaders g) (gc_CompareHeaders defaultHTTP_GlobalConfig)
  && Bool.eqb (gc_StoreReqBody g) (gc_StoreReqBody defaultHTTP_GlobalConfig)
  && Bool.eqb (gc_StoreRespBodies g) (gc_StoreRespBodies defaultHTTP_GlobalConfig)
  && (gc_TestProbability g =? gc_TestProbability defaultHTTP_GlobalConfig)
  && (length (gc_SkipJSONPaths g) =? length (gc_SkipJSONPaths defaultHTTP_GlobalConfig))%nat.

Definition setCompareHeaders (g : GlobalConfig) (v : bool) : GlobalConfig :=
  {| gc_CompareHeaders := v; gc_CompareBody := gc_CompareBody g;
     gc_SkipHeaders := gc_SkipHeaders g; gc_StoreReqBody := gc_StoreReqBody g;
     gc_StoreRespBodies := gc_StoreRespBodies g;
     gc_SkipJSONPaths := gc_SkipJSONPaths g;
     gc_TestProbability := gc_TestProbability g |}.

Definition setTestProbability (g : GlobalConfig) (v : Z) : GlobalConfig :=
  {| gc_CompareHeaders := gc_CompareHeaders g; gc_CompareBody := gc_CompareBody g;
     gc_SkipHeaders := gc_SkipHeaders g; gc_StoreReqBody := gc_StoreReqBody g;
     gc_StoreRespBodies := gc_StoreRespBodies g;
     gc_SkipJSONPaths := gc_SkipJSONPaths g;
     gc_TestProbability := v |}.

Definition setStoreRespBodies (g : GlobalConfig) (v : bool) : GlobalConfig :=
  {| gc_CompareHeaders := gc_CompareHeaders g; gc_CompareBody := gc_CompareBody g;
     gc_SkipHeaders := gc_SkipHeaders g; gc_StoreReqBody := gc_StoreReqBody g;
     gc_StoreRespBodies := v;
     gc_SkipJSONPaths := gc_SkipJSONPaths g;
     gc_TestProbability := gc_TestProbability g |}.

Definition setSkipJSONPaths (g : GlobalConfig) (v : list string) : GlobalConfig :=
  {| gc_CompareHeaders := gc_CompareHeaders g; gc_CompareBody := gc_CompareBody g;
     gc_SkipHeaders := gc_SkipHeaders g; gc_StoreReqBody := gc_StoreReqBody g;
     gc_StoreRespBodies := gc_StoreRespBodies g;
     gc_SkipJSONPaths := v;
     gc_TestProbability := gc_TestProbability g |}.

(** [migrateFromLegacyConfig], as a function of the legacy fields and the
    global configuration it updates. *)
Definition migrateFromLegacyConfig (legacy : LegacyFields) (g : GlobalConfig)
    : GlobalConfig :=
  if negb (globalConfigIsDefault g) then g
  else
    let g :=
      if negb (Bool.eqb (lg_CompareHeaders legacy) (lg_CompareHeaders defaultHTTP_Legacy))
      then setCompareHeaders g (lg_CompareHeaders legacy) else g in
    let g :=
      if negb (lg_TestProbability legacy =? 0)
         && negb (lg_TestProbability legacy =? lg_TestProbability defaultHTTP_Legacy)
      then setTestProbability g (lg_TestProbability legacy) else g in
    let g :=
      if negb (Bool.eqb (lg_LogResponsePayload legacy)
                 (lg_LogResponsePayload defaultHTTP_Legacy))
      then setStoreRespBodies g (lg_LogResponsePayload legacy) else g in
    if (0 <? length (lg_SkipJSONPaths legacy))%nat
       && (length (gc_SkipJSONPaths g) =? 0)%nat
    then setSkipJSONPaths g (lg_SkipJSONPaths legacy) else g.

(** The closure [validatePatterns]: the first route whose path is not a
    valid pattern stops the program ([logging.L.Fatal]); [None] when
    every route passes. *)
Fixpoint validatePatterns (routes : list string) : option string :=
  match routes with
  | [] => None
  | route :: rest =>
      if negb (isValidRoutePattern (ParseRoute route).2) then Some route
      else validatePatterns rest
  end.

(** [for route := range c.RouteConfigs { keys = append(keys, route) }]. *)
Fixpoint routeConfigKeys (routeConfigs : gmap string RouteConfig)
    (order : list string) : list string :=
  match order with
  | [] => []
  | route :: rest =>
      match routeConfigs !! route with
      | Some _ => route :: routeConfigKeys routeConfigs rest
      | None => routeConfigKeys routeConfigs rest
      end
  end.

(** [validateRoutePatterns]: [None] when it returns, otherwise the
    context and the route of the fatal message. *)
Definition validateRoutePatterns (c : HTTPConfig) (order : list string)
    : option (string * string) :=
  match validatePatterns (cfg_SkipRoutes c) with
  | Some route => Some ("skip_routes", route)
  | None =>
      match validatePatterns (routeConfigKeys (cfg_RouteConfigs c) order) with
      | Some route => Some ("route_configs", route)
      | None => None
      end
  end.

Inductive LoadResult :=
  | Fatal (context route : string)
  | Loaded (c : HTTPConfig) (computed : ComputedRouteConfigs).

(** [LoadHTTP] after the file has been unmarshalled into [c] and the
    legacy fields: migration, validation, precomputation. *)
Definition LoadHTTP (legacy : LegacyFields) (c : HTTPConfig) (order : list string)
    : LoadResult :=
  let c := {| cfg_GlobalConfig := migrateFromLegacyConfig legacy (cfg_GlobalConfig c);
              cfg_RouteConfigs := cfg_RouteConfigs c;
              cfg_SkipRoutes := cfg_SkipRoutes c |} in
  match validateRoutePatterns c order with
  | Some (context, route) => Fatal context route
  | None => Loaded c (PrecomputeRouteConfigs c)
  end.

End Startup.

(* ===================================================================== *)
(** * Observations on runs of the handler and of the sampler              *)
(* ===================================================================== *)

Module Observations.
Import GoStrings Config Json Storage Main.

(** The response writer and the server state a run of the handler ends
    with, whether it returned or is parked in the send. *)
Definition outcomeWriter (o : HandleOutcome) : ResponseWriter :=
  match o with Returned w _ _ => w | BlockedOnSend w _ _ _ => w end.

Definition outcomeServer (o : HandleOutcome) : server :=
  match o with Returned _ s _ => s | BlockedOnSend _ s _ _ => s end.

Definition outcomeEvents (o : HandleOutcome) : list Event :=
  match o with Returned _ _ evs => evs | BlockedOnSend _ _ evs _ => evs end.

(** How many of [len] requests in a row the sampler admits at test
    probability [p], when the first of them sees the counter value [k]
    and each request adds one to the counter. *)
Fixpoint countAdmitted (p k : Z) (len : nat) : nat :=
  match len with
  | O => O
  | S len' => ((if inBucket k p then 1 else 0) + countAdmitted p (AddUint64 k 1) len')%nat
  end.

(** The cases of [TestHTTPConfig_migrateFromLegacyConfig]. *)
Definition testedGlobal : GlobalConfig :=
  {| gc_CompareHeaders := true; gc_CompareBody := false; gc_SkipHeaders := [];
     gc_StoreReqBody := false; gc_StoreRespBodies := true; gc_SkipJSONPaths := [];
     gc_TestProbability := 100 |}.

Definition migrationCases : list (Startup.LegacyFields * GlobalConfig) :=
  [({| Startup.lg_SkipJSONPaths := ["timestamp"; "id"]; Startup.lg_TestProbability := 75;
       Startup.lg_LogResponsePayload := false; Startup.lg_CompareHeaders := false |},
    {| gc_CompareHeaders := false; gc_CompareBody := false; gc_SkipHeaders := [];
       gc_StoreReqBody := false; gc_StoreRespBodies := false;
       gc_SkipJSONPaths := ["timestamp"; "id"]; gc_TestProbability := 75 |});
   ({| Startup.lg_SkipJSONPaths := []; Startup.lg_TestProbability := 0;
       Startup.lg_LogResponsePayload := true; Startup.lg_CompareHeaders := true |},
    testedGlobal);
   ({| Startup.lg_SkipJSONPaths := ["test"]; Startup.lg_TestProbability := 50;
       Startup.lg_LogResponsePayload := true; Startup.lg_CompareHeaders := false |},
    {| gc_CompareHeaders := false; gc_CompareBody := false; gc_SkipHeaders := [];
       gc_StoreReqBody := false; gc_StoreRespBodies := true;
       gc_SkipJSONPaths := ["test"]; gc_TestProbability := 50 |})].

(** The label values of the [ComparisonResults] increments, in order. *)
Definition verdicts (evs : list Event) : list (string * string * string) :=
  omap (λ e, match e with
             | EvComparisonResults route method kind => Some (route, method, kind)
             | _ => None
             end) evs.

(** The metric and the sink agree: at most one verdict, labelled with the
    job's route and method; [identical] comes with no record, any other
    verdict with one record of that comparison type; no verdict, no
    record. *)
Definition verdictAgrees (j : upstreamTestJob) (evs : list Event) : Prop :=
  match verdicts evs with
  | [] => stored evs = []
  | [(route, method, kind)] =>
      route = j_route j ∧ method = req_Method (j_req j)
      ∧ if String.eqb kind "identical" then stored evs = []
        else ∃ l, stored evs = [l] ∧ ComparisonType l = kind
  | _ => False
  end.

(** Whether [Do] takes the main response for JSON. *)
Definition jsonContentType (h : Header) : bool :=
  String.eqb (ToLower (Get_content_type h)) "application/json"
  || String.eqb (ToLower (Get_content_type h)) "application/ld+json".

(** The last event of a run is an error line of the log. *)
Definition endsInErrorLog (evs : list Event) : Prop :=
  ∃ msg, last evs = Some (EvLog "error" msg).

(** A run in which the test upstream cannot be reached. *)
Definition testUnreachable : DoWorld :=
  {| dw_seekReqOk := true; dw_newRequestOk := true; dw_testDo := None;
     dw_seekMainOk := true; dw_readMainOk := true; dw_storeOk := true;
     dw_mainHeaderOrder := []; dw_testHeaderOrder := [] |}.




(** A job whose two upstreams answer with an empty body declared as JSON. *)
Definition emptyJob : upstreamTestJob :=
  {| j_req := Examples.exampleRequest; j_route := "GET:/a";
     j_routeConfig := Examples.jsonPolicy; j_reqBodyBuffer := EmptyString;
     j_mainRes := Examples.jsonAnswer 204 "Mon" EmptyString;
     j_mainResBody := EmptyString |}.


End Observations.

(* ===================================================================== *)
(** * Properties of the route keys and of the matcher                     *)
(* ===================================================================== *)

Section RouteKeys.
Import GoStrings Config.

Lemma HasPrefix_empty s : HasPrefix s EmptyString = true.
Proof. by destruct s. Qed.

Lemma Contains_cons c s sep :
  Contains (String c s) (String sep EmptyString)
  = Ascii.eqb c sep || Contains s (String sep EmptyString).
Proof. simpl. rewrite HasPrefix_empty. by destruct (Ascii.eqb c sep). Qed.

(** Upper-casing never produces a colon out of another byte. *)
Lemma upper_byte_colon c : Ascii.eqb (upper_byte c) ":" = Ascii.eqb c ":".
Proof. by destruct c as [[] [] [] [] [] [] [] []]. Qed.

Lemma Cut_ToUpper_colon m p :
  Contains m ":" = false →
  Cut (ToUpper m +:+ ":" +:+ p) ":" = Some (ToUpper m, p).
Proof.
  induction m as [|c m IH]; intros Hm; [done|].
  rewrite Contains_cons in Hm. apply orb_false_iff in Hm as [Hc Hm].
  change (ToUpper (String c m) +:+ ":" +:+ p)
    with (String (upper_byte c) (ToUpper m +:+ ":" +:+ p)).
  cbn [Cut]. rewrite upper_byte_colon, Hc.
  by rewrite (IH Hm).
Qed.

(** C10.  Round trip of the route key: for a method without a colon,
    parsing the formatted route gives back the upper-cased method and
    the path unchanged. *)
Theorem C10_ParseRoute_FormatRoute (m p : string) :
  Contains m ":" = false →
  ParseRoute (FormatRoute m p) = (ToUpper m, p).
Proof.
  intros Hm. unfold ParseRoute, FormatRoute.
  cbn [SplitN]. by rewrite (Cut_ToUpper_colon m p Hm).
Qed.

Lemma C10_ParseRoute_FormatRoute_witness :
  Contains "get" ":" = false
  ∧ ParseRoute (FormatRoute "get" "/api:v1/users") = ("GET", "/api:v1/users").
Proof.
  split; [reflexivity|].
  exact (C10_ParseRoute_FormatRoute "get" "/api:v1/users" eq_refl).
Defined.

End RouteKeys.

Section SegmentWildcards.
Import GoStrings Config Examples.

Lemma compareSegments_Forall2 (cs rs : list string) :
  length rs = length cs →
  compareSegments cs rs = true ↔ Forall2 (λ c r, c = "*" ∨ c = r) cs rs.
Proof.
  revert rs. induction cs as [|c cs IH]; intros [|r rs] Hlen; simplify_eq/=.
  - split; [constructor|done].
  - specialize (IH rs Hlen). destruct (String.eqb_spec c "*") as [->|Hstar].
    + split.
      * intros H. constructor; [by left|]. by apply IH.
      * intros H. inversion H; subst. by apply IH.
    + destruct (String.eqb_spec c r) as [->|Hcr]; simpl.
      * split.
        -- intros H. constructor; [by right|]. by apply IH.
        -- intros H. inversion H; subst. by apply IH.
      * split; [done|]. intros H. inversion H as [|???? [?|?]]; by subst.
Qed.

Lemma matchSegmentWildcards_segments (requestPath configPath : string) :
  isTrailingWildcard configPath = false →
  matchSegmentWildcards requestPath configPath = true ↔
    length (pathSegments requestPath) = length (pathSegments configPath)
    ∧ Forall2 (λ c r, c = "*" ∨ c = r)
        (pathSegments configPath) (pathSegments requestPath).
Proof.
  intros Htrail. unfold matchSegmentWildcards. rewrite Htrail.
  destruct (Nat.eqb_spec (length (pathSegments requestPath))
              (length (pathSegments configPath))) as [Hlen|Hlen]; simpl.
  - rewrite compareSegments_Forall2 by done. tauto.
  - split; [done|]. by intros [? _].
Qed.

(** C8 (as the code has it).  When the pattern is not of the
    trailing-wildcard form, a request path matches exactly when it has
    as many segments as the pattern and every pattern segment is either
    ["*"] or equal to the request segment at its position: a ["*"]
    stands for exactly one request segment, which may be empty.  So
    [GET:/u/*/p] matches [GET /u/42/p] and not [GET /u/42/43/p]. *)
Theorem C8_single_segment_wildcard (path_Match : string → string → bool)
    (requestPath configPath : string) :
  isTrailingWildcard configPath = false →
  (matchSegmentWildcards requestPath configPath = true ↔
     length (pathSegments requestPath) = length (pathSegments configPath)
     ∧ Forall2 (λ c r, c = "*" ∨ c = r)
         (pathSegments configPath) (pathSegments requestPath))
  ∧ MatchRoute path_Match "GET:/u/42/p" "GET:/u/*/p" = true
  ∧ MatchRoute path_Match "GET:/u/42/43/p" "GET:/u/*/p" = false.
Proof.
  intros Htrail. split; [by apply matchSegmentWildcards_segments|]. done.
Qed.

Lemma C8_single_segment_wildcard_witness :
  isTrailingWildcard "/u/*/p" = false
  ∧ (matchSegmentWildcards "/u/42/p" "/u/*/p" = true ↔
       length (pathSegments "/u/42/p") = length (pathSegments "/u/*/p")
       ∧ Forall2 (λ c r, c = "*" ∨ c = r)
           (pathSegments "/u/*/p") (pathSegments "/u/42/p")).
Proof.
  split; [reflexivity|].
  exact (proj1 (C8_single_segment_wildcard (λ _ _, false) "/u/42/p" "/u/*/p" eq_refl)).
Defined.

(** C8 as stated fails: the ["*"] of [/u/*/p] is matched against the
    empty segment of [/u//p]. *)
Lemma C8_counterexample_empty_segment :
  isTrailingWildcard "/u/*/p" = false
  ∧ pathSegments "/u/*/p" = ["u"; "*"; "p"]
  ∧ pathSegments "/u//p" = ["u"; EmptyString; "p"]
  ∧ matchSegmentWildcards "/u//p" "/u/*/p" = true
  ∧ MatchRoute (λ _ _, false) "GET:/u//p" "GET:/u/*/p" = true.
Proof. by vm_compute. Qed.

(** The model agrees with the repository's tables of expected results. *)
Example TestMatchRoute_cases (path_Match : string → string → bool) :
  Forall (λ case, MatchRoute path_Match case.1.1 case.1.2 = case.2) matchRouteCases.
Proof. unfold matchRouteCases. repeat (constructor; [reflexivity|]). constructor. Qed.

Example TestParseRoute_cases :
  Forall (λ case, ParseRoute case.1 = case.2) parseRouteCases.
Proof. unfold parseRouteCases. repeat (constructor; [reflexivity|]). constructor. Qed.

End SegmentWildcards.

(* ===================================================================== *)
(** * Policy resolution and lookup                                         *)
(* ===================================================================== *)

Section PolicyResolution.
Import GoStrings Config Spec Examples.

Lemma overrideBool_TriValued token global :
  TriValued token global (overrideBool token global).
Proof. unfold TriValued, overrideBool. by repeat split; intros ->. Qed.

(** C5.  The effective policy stored for a route pattern takes every
    boolean from the token (empty: the global value, [enable]: true,
    [disable]: false), the test probability from the override unless it
    is 0, and each list as the global entries followed by the override
    entries. *)
Theorem C5_policy_resolution (c : HTTPConfig) (pattern : string) (r : RouteConfig) :
  cfg_RouteConfigs c !! pattern = Some r →
  0 ≤ rc_TestProbability r →
  let g := cfg_GlobalConfig c in
  ∃ e, Routes (PrecomputeRouteConfigs c) !! pattern = Some e
    ∧ TriValued (rc_CompareHeaders r) (gc_CompareHeaders g) (CompareHeaders e)
    ∧ TriValued (rc_CompareBody r) (gc_CompareBody g) (CompareBody e)
    ∧ TriValued (rc_StoreReqBody r) (gc_StoreReqBody g) (StoreReqBody e)
    ∧ TriValued (rc_StoreRespBodies r) (gc_StoreRespBodies g) (StoreRespBodies e)
    ∧ (rc_TestProbability r = 0 → TestProbability e = gc_TestProbability g)
    ∧ (rc_TestProbability r ≠ 0 → TestProbability e = rc_TestProbability r)
    ∧ SkipHeaders e = gc_SkipHeaders g ++ rc_SkipHeaders r
    ∧ SkipJSONPaths e = gc_SkipJSONPaths g ++ rc_SkipJSONPaths r.
Proof.
  intros Hr Hp g. eexists. split.
  { unfold PrecomputeRouteConfigs. cbn [Routes]. by rewrite lookup_fmap, Hr. }
  cbn [mergedConfig computeGlobal CompareHeaders CompareBody StoreReqBody
       StoreRespBodies TestProbability SkipHeaders SkipJSONPaths].
  repeat split; try apply overrideBool_TriValued.
  - by intros ->.
  - intros Hne. destruct (Z.ltb_spec 0 (rc_TestProbability r)); [done|lia].
  - destruct (rc_SkipHeaders r); simpl; [by rewrite app_nil_r|done].
  - destruct (rc_SkipJSONPaths r); simpl; [by rewrite app_nil_r|done].
Qed.

Lemma C5_policy_resolution_witness :
  cfg_RouteConfigs testConfig !! "POST:/api/users" = Some postUsers
  ∧ 0 ≤ rc_TestProbability postUsers
  ∧ ∃ e, Routes (PrecomputeRouteConfigs testConfig) !! "POST:/api/users" = Some e
      ∧ TriValued "disable" true (CompareHeaders e)
      ∧ TriValued EmptyString false (CompareBody e)
      ∧ TriValued "enable" false (StoreReqBody e)
      ∧ TriValued "enable" true (StoreRespBodies e)
      ∧ (75 = 0 → TestProbability e = 100)
      ∧ (75 ≠ 0 → TestProbability e = 75)
      ∧ SkipHeaders e = ["Date"; "Server"] ++ ["Authorization"]
      ∧ SkipJSONPaths e = ["timestamp"] ++ ["password"].
Proof.
  split; [reflexivity|]. split; [by vm_compute|].
  refine (C5_policy_resolution testConfig "POST:/api/users" postUsers eq_refl _).
  by vm_compute.
Defined.

(** ** Lookup order *)

Lemma rangeSkipRoutes_empty pm order route :
  rangeSkipRoutes pm ∅ order route = false.
Proof. induction order as [|k order IH]; simpl; [done|]. by rewrite lookup_empty. Qed.

(** C2 fails on the code, which contradicts the documented "patterns
    are evaluated in the order they appear in the configuration".
    [GetRouteConfig] answers from the exact-match map before it tries
    any pattern: with [GET:/u/*] listed before [GET:/u/me], a request
    [GET:/u/me] gets the policy of the later entry, whatever order the
    map is visited in.  And the patterns are tried in the visiting order
    of a Go map, not in configuration order: with [GET:/u/*/p] listed
    before [GET:/u/*], a run that visits [GET:/u/*] first gives
    [GET:/u/42/p] the policy of the later entry. *)
Theorem C2_lookup_ignores_config_order (path_Match : string → string → bool)
    (skipOrder routeOrder : list string) :
  (routeLookup path_Match (PrecomputeRouteConfigs (loaded generalFirst))
     skipOrder routeOrder "GET:/u/me" = Policy (policyWithProbability 50)
   ∧ resolve path_Match [] (inConfigOrder generalFirst)
       (computeGlobal defaultGlobal) "GET:/u/me" = Policy (policyWithProbability 10))
  ∧ (RangeOrder (Routes (PrecomputeRouteConfigs (loaded specificFirst)))
       ["GET:/u/*"; "GET:/u/*/p"]
     ∧ routeLookup path_Match (PrecomputeRouteConfigs (loaded specificFirst))
         skipOrder ["GET:/u/*"; "GET:/u/*/p"] "GET:/u/42/p"
       = Policy (policyWithProbability 10)
     ∧ resolve path_Match [] (inConfigOrder specificFirst)
         (computeGlobal defaultGlobal) "GET:/u/42/p" = Policy (policyWithProbability 50))
  ∧ TestProbability (policyWithProbability 10) ≠ TestProbability (policyWithProbability 50).
Proof.
  split; [|split].
  - split; [|done]. unfold routeLookup, IsRouteSkipped.
    cbn [PrecomputeRouteConfigs loaded SkipRoutes cfg_SkipRoutes foldl].
    rewrite lookup_empty, rangeSkipRoutes_empty. done.
  - split; [|split; [|done]].
    + unfold RangeOrder. vm_compute. apply perm_swap.
    + unfold routeLookup, IsRouteSkipped.
      cbn [PrecomputeRouteConfigs loaded SkipRoutes cfg_SkipRoutes foldl].
      rewrite lookup_empty, rangeSkipRoutes_empty. done.
  - by vm_compute.
Qed.

End PolicyResolution.

(* ===================================================================== *)
(** * The request handler                                                  *)
(* ===================================================================== *)

Section FrontEnd.
Import GoStrings Config Storage Main Spec Examples.

(** C1 fails on the code, which the documentation contradicts
    ("test_probability: 0 # Never test", "100% testing"): the test is
    [n % 100 < p - 1] on [uint64].  With [p = 100] a counter value of 99
    is not admitted; with [p = 0] the subtraction wraps to [2^64 - 1]
    and every request is admitted. *)
Theorem C1_sampler_off_by_one_and_wrap :
  inBucket 99 100 = false ∧ ∀ n : Z, inBucket n 0 = true.
Proof.
  split; [reflexivity|]. intros n. unfold inBucket.
  apply Z.ltb_lt. change ((0 - 1) mod uint64_modulus) with 18446744073709551615.
  pose proof (Z.mod_pos_bound n 100). lia.
Qed.

Lemma IsRouteSkipped_no_skip_routes pm routes global order route :
  IsRouteSkipped pm {| Routes := routes; Global := global; SkipRoutes := ∅ |}
    order route = false.
Proof.
  unfold IsRouteSkipped. cbn [SkipRoutes].
  by rewrite lookup_empty, rangeSkipRoutes_empty.
Qed.

(** C3 fails on the code.  On a route that is not skipped, a transport
    error of the main upstream and a failed read of the request body
    both end the handler before anything is written to the client: no
    status is set (the client gets the default 200), and no job is
    queued.  The branch for skipped routes does answer the same
    transport error with 502. *)
Theorem C3_error_paths_write_no_status (path_Match : string → string → bool)
    (routes : gmap string ComputedRouteConfig) (global : ComputedRouteConfig)
    (s : server) (skipOrder routeOrder : list string) (clientWriteOk : bool)
    (method path url body partial : string) (header : gmap string (list string)) :
  let cc := {| Routes := routes; Global := global; SkipRoutes := ∅ |} in
  let mainFails :=
    {| hw_skipOrder := skipOrder; hw_routeOrder := routeOrder;
       hw_newRequestOk := true; hw_mainDo := None;
       hw_clientWriteOk := clientWriteOk |} in
  let route := FormatRoute method path in
  handle path_Match cc s mainFails emptyWriter
    {| req_Method := method; req_Path := path; req_URL := url;
       req_Header := header; req_Body := ReadOk body |}
  = Returned emptyWriter s
      [EvHTTPReqDuration method "main_upstream" route;
       EvHTTPReqCounter client_error method "main_upstream" route "error";
       EvLog "error" "error in doing the request to the main service"]
  ∧ handle path_Match cc s mainFails emptyWriter
      {| req_Method := method; req_Path := path; req_URL := url;
         req_Header := header; req_Body := ReadErr partial |}
    = Returned emptyWriter s [EvLog "error" "error in reading the request body"]
  ∧ clientStatus emptyWriter = 200
  ∧ w_Status (http_Error emptyWriter "Failed to reach upstream" 502) = Some 502
  ∧ handleSkipped s mainFails emptyWriter
      {| req_Method := method; req_Path := path; req_URL := url;
         req_Header := header; req_Body := ReadOk body |} route
    = Returned (http_Error emptyWriter "Failed to reach upstream" 502) s
        [EvRouteSkipCounter route method "config";
         EvHTTPReqDuration method "main_upstream" route;
         EvHTTPReqCounter client_error method "main_upstream" route "skipped"].
Proof.
  intros cc mainFails route. repeat split.
  - unfold handle. subst cc. by rewrite IsRouteSkipped_no_skip_routes.
  - unfold handle. subst cc. by rewrite IsRouteSkipped_no_skip_routes.
Qed.

(** C4 as stated fails: with the queue full and no worker waiting, the
    handler does not return; it stays parked in the send. *)
Lemma C4_counterexample_full_queue_blocks :
  length (ch_buf (job busyServer)) = ch_cap (job busyServer)
  ∧ match handle (λ _ _, false) globalOnly busyServer allCallsSucceed
            emptyWriter exampleRequest with
    | BlockedOnSend _ s _ _ => job s = job busyServer
    | Returned _ _ _ => False
    end.
Proof. by vm_compute. Qed.

(** C4 (as the code has it).  The enqueue is a blocking channel send.
    If the queue already holds its capacity of jobs and no worker is
    waiting to receive, the send does not complete: the handler stays
    parked with the job pending, and the queue, the request counter and
    the recorded metrics are as they were.  Whenever the send does
    complete, the job is in the queue or in the hands of a worker:
    nothing is dropped. *)
Theorem C4_enqueue_blocks_when_full (writer : ResponseWriter) (s : server)
    (evs : list Event) (pending : upstreamTestJob) :
  length (ch_buf (job s)) = ch_cap (job s) →
  ch_recvq (job s) = 0%nat →
  enqueue writer s evs pending = BlockedOnSend writer s evs pending
  ∧ ∀ (c : Chan) (c' : Chan),
      chansend c pending = Some c' →
      pending ∈ ch_buf c' ++ ch_taken c'
      ∧ (∀ queued, queued ∈ ch_buf c ++ ch_taken c → queued ∈ ch_buf c' ++ ch_taken c').
Proof.
  intros Hfull Hrecv. split.
  - unfold enqueue, chansend. rewrite Hrecv, Hfull. simpl.
    by rewrite Nat.ltb_irrefl.
  - intros c c'. unfold chansend.
    destruct (0 <? ch_recvq c)%nat; [|destruct (length (ch_buf c) <? ch_cap c)%nat];
      intros Hc; simplify_eq/=.
    + split; [|intros q]; rewrite !elem_of_app, ?list_elem_of_singleton; tauto.
    + split; [|intros q]; rewrite !elem_of_app, ?list_elem_of_singleton; tauto.
Qed.

Lemma C4_enqueue_blocks_when_full_witness :
  length (ch_buf (job busyServer)) = ch_cap (job busyServer)
  ∧ ch_recvq (job busyServer) = 0%nat
  ∧ enqueue emptyWriter busyServer [] queuedJob
    = BlockedOnSend emptyWriter busyServer [] queuedJob.
Proof.
  split; [reflexivity|]. split; [reflexivity|].
  exact (proj1 (C4_enqueue_blocks_when_full emptyWriter busyServer [] queuedJob
                  eq_refl eq_refl)).
Defined.

End FrontEnd.

(* ===================================================================== *)
(** * Header comparison                                                    *)
(* ===================================================================== *)

Section HeaderComparison.
Import GoStrings Config Storage Main Spec Examples.

Lemma skipHeadersMap_from (skipHeaders : list string) (m : gmap string bool) (k : string) :
  foldl (λ m header, <[ToLower header := true]> m) m skipHeaders !! k
  = if decide (k ∈ ToLower <$> skipHeaders) then Some true else m !! k.
Proof.
  revert m. induction skipHeaders as [|h rest IH]; intros m; simpl.
  - destruct (decide (k ∈ [])) as [Hin|_]; [by apply elem_of_nil in Hin|done].
  - rewrite IH. destruct (decide (k ∈ ToLower <$> rest)) as [Hin|Hnin].
    + rewrite decide_True; [done|]. apply elem_of_cons. by right.
    + destruct (decide (k = ToLower h)) as [->|Hne].
      * rewrite decide_True; [|apply elem_of_cons; by left].
        by rewrite lookup_insert_eq.
      * rewrite decide_False; [by rewrite lookup_insert_ne|].
        intros [?|?]%elem_of_cons; done.
Qed.

Lemma skipHeadersMap_not_skipped (skipHeaders : list string) (k : string) :
  default false (skipHeadersMap skipHeaders !! k) = false →
  k ∉ ToLower <$> skipHeaders.
Proof.
  unfold skipHeadersMap. rewrite skipHeadersMap_from.
  destruct (decide (k ∈ ToLower <$> skipHeaders)); [done|auto].
Qed.

Lemma rangeMainHeaders_reportable skip (mainHeaders testHeaders : Header) order acc :
  Forall (reportable skip mainHeaders testHeaders) acc →
  Forall (reportable skip mainHeaders testHeaders)
    (rangeMainHeaders skip mainHeaders testHeaders order acc).
Proof.
  revert acc. induction order as [|key rest IH]; intros acc Hacc; simpl; [done|].
  destruct (mainHeaders !! key) as [mainValues|] eqn:Hmain; [|by apply IH].
  destruct (default false (skip !! ToLower key)) eqn:Hskip; [by apply IH|].
  assert (Forall (reportable skip mainHeaders testHeaders) (acc ++ [key])) as Hkey.
  { apply Forall_app. split; [done|]. apply Forall_singleton. split; [|done].
    apply elem_of_union_l, elem_of_dom. by eexists. }
  destruct (testHeaders !! key) as [testValues|]; [|by apply IH].
  destruct (negb (length mainValues =? length testValues)%nat); [by apply IH|].
  destruct (valuesDiffer mainValues testValues); by apply IH.
Qed.

Lemma rangeTestHeaders_reportable skip (mainHeaders testHeaders : Header) order acc :
  Forall (reportable skip mainHeaders testHeaders) acc →
  Forall (reportable skip mainHeaders testHeaders)
    (rangeTestHeaders skip mainHeaders testHeaders order acc).
Proof.
  revert acc. induction order as [|key rest IH]; intros acc Hacc; simpl; [done|].
  destruct (testHeaders !! key) as [testValues|] eqn:Htest; [|by apply IH].
  destruct (default false (skip !! ToLower key)) eqn:Hskip; [by apply IH|].
  destruct (mainHeaders !! key); [by apply IH|].
  apply IH, Forall_app. split; [done|]. apply Forall_singleton. split; [|done].
  apply elem_of_union_r, elem_of_dom. by eexists.
Qed.

(** C9.  Every name that the header comparison reports is a header name
    of the main or of the test response, and its lower-case form is not
    the lower-case form of any entry of the skip list; this holds for any
    order in which the two maps are visited. *)
Theorem C9_different_headers_bounds (skipHeaders mainOrder testOrder : list string)
    (mainHeaders testHeaders : Header) (name : string) :
  name ∈ compareHeaders skipHeaders mainOrder testOrder mainHeaders testHeaders →
  name ∈ dom mainHeaders ∪ dom testHeaders
  ∧ ToLower name ∉ ToLower <$> skipHeaders.
Proof.
  intros Hname. unfold compareHeaders in Hname.
  pose proof (rangeTestHeaders_reportable (skipHeadersMap skipHeaders)
                mainHeaders testHeaders testOrder _
                (rangeMainHeaders_reportable (skipHeadersMap skipHeaders)
                   mainHeaders testHeaders mainOrder [] (Forall_nil_2 _))) as Hall.
  rewrite list.Forall_forall in Hall. destruct (Hall name Hname) as [Hdom Hskip].
  split; [done|]. by apply skipHeadersMap_not_skipped.
Qed.

Lemma C9_different_headers_bounds_witness :
  "Etag" ∈ compareHeaders skippedHeaders ["Date"; "Etag"; "X-Trace"]
             ["X-Trace"; "Etag"; "Date"] mainAnswerHeaders testAnswerHeaders
  ∧ "Etag" ∈ dom mainAnswerHeaders ∪ dom testAnswerHeaders
  ∧ ToLower "Etag" ∉ ToLower <$> skippedHeaders.
Proof.
  assert ("Etag" ∈ compareHeaders skippedHeaders ["Date"; "Etag"; "X-Trace"]
            ["X-Trace"; "Etag"; "Date"] mainAnswerHeaders testAnswerHeaders) as Hin.
  { vm_compute. apply list_elem_of_singleton. reflexivity. }
  split; [exact Hin|].
  exact (C9_different_headers_bounds skippedHeaders ["Date"; "Etag"; "X-Trace"]
           ["X-Trace"; "Etag"; "Date"] mainAnswerHeaders testAnswerHeaders
           "Etag" Hin).
Defined.

End HeaderComparison.

(* ===================================================================== *)
(** * JSON values: equality and masking                                    *)
(* ===================================================================== *)

Section JsonEquality.
Import GoStrings Json.

Lemma json_size_item x items : x ∈ items → (json_size x < json_size (JArr items))%nat.
Proof. induction 1 as [x l|x y l _ IH]; simpl in *; lia. Qed.

Lemma json_size_field k x (fields : gmap string json) :
  fields !! k = Some x → (json_size x < json_size (JObj fields))%nat.
Proof.
  intros Hk. simpl. rewrite map_fold_foldr.
  apply elem_of_map_to_list in Hk.
  induction (map_to_list fields) as [|[k' y] l IH]; [by apply elem_of_nil in Hk|].
  apply elem_of_cons in Hk as [Hk|Hk]; simpl in *.
  - inversion Hk; subst. lia.
  - specialize (IH Hk). lia.
Qed.

(** Induction over JSON values, with the hypothesis available for every
    array item and every object member. *)
Lemma json_nested_ind (P : json → Prop) :
  P JNull → (∀ b, P (JBool b)) → (∀ n, P (JNum n)) → (∀ s, P (JStr s)) →
  (∀ items, Forall P items → P (JArr items)) →
  (∀ fields : gmap string json, map_Forall (λ _, P) fields → P (JObj fields)) →
  ∀ j, P j.
Proof.
  intros Hnull Hbool Hnum Hstr Harr Hobj j.
  remember (json_size j) as n eqn:Hn. revert j Hn.
  induction n as [n IH] using lt_wf_ind. intros [| | | |items|fields] ->; auto.
  - apply Harr, list.Forall_forall. intros x Hx.
    apply (IH (json_size x)); [|done]. by apply json_size_item.
  - apply Hobj. intros k x Hk.
    apply (IH (json_size x)); [|done]. by eapply json_size_field.
Qed.

Lemma json_encode_obj (fields : gmap string json) :
  json_encode (JObj fields) =
  GenNode 1 ((λ kx, GenNode 2 [GenLeaf (AStr kx.1); json_encode kx.2])
               <$> map_to_list fields).
Proof.
  simpl. f_equal. rewrite map_fold_foldr.
  induction (map_to_list fields) as [|[k x] l IH]; simpl; [done|]. by rewrite IH.
Qed.

Lemma json_encode_inj a b : json_encode a = json_encode b → a = b.
Proof.
  revert b. induction a as [| | | |items IH|fields IH] using json_nested_ind;
    intros [| | | |items'|fields'] Heq;
    try (rewrite ?json_encode_obj in Heq; simpl in Heq; congruence).
  - simpl in Heq. f_equal. injection Heq as Heq. revert items' Heq.
    induction IH as [|x l Hx _ IHl]; intros [|y l'] Heq; simplify_eq/=; [done|].
    f_equal; auto.
  - rewrite !json_encode_obj in Heq. injection Heq as Heq. f_equal.
    apply map_to_list_inj.
    assert (Forall (λ kx, ∀ b, json_encode kx.2 = json_encode b → kx.2 = b)
              (map_to_list fields)) as Hall.
    { apply list.Forall_forall. intros [k x] Hkx.
      apply elem_of_map_to_list in Hkx. simpl. intros b. by apply (IH k x). }
    revert Heq Hall. generalize (map_to_list fields) (map_to_list fields').
    intros l. induction l as [|[k x] l IHl]; intros [|[k' x'] l'] Heq Hall;
      simplify_eq/=; [done|].
    inversion_clear Hall as [|?? Hx Hall']. simpl in Hx.
    rewrite (Hx x') by done. f_equiv. by apply IHl.
Qed.

(** [DeepEqual] decides equality of values. *)
Lemma DeepEqual_eq a b : DeepEqual a b = true ↔ a = b.
Proof.
  unfold DeepEqual. rewrite bool_decide_eq_true. split; [apply json_encode_inj|by intros ->].
Qed.

Lemma DeepEqual_refl a : DeepEqual a a = true.
Proof. by apply DeepEqual_eq. Qed.

End JsonEquality.

Section Masking.
Import GoStrings Json.










End Masking.

Section TopLevelKeys.
Import GoStrings Json.

Lemma Split_no_separator s c : Contains s (String c EmptyString) = false → Split s c = [s].
Proof.
  induction s as [|a s IH]; intros Hs; [done|].
  rewrite Contains_cons in Hs. apply orb_false_iff in Hs as [Ha Hs].
  cbn [Split]. by rewrite Ha, (IH Hs).
Qed.

Lemma differOnlyAt_add_left paths (extra base : gmap string json) b :
  (∀ k, is_Some (extra !! k) → k ∈ paths ∧ segments k = [k]) →
  differOnlyAt paths (JObj base) b →
  differOnlyAt paths (JObj (extra ∪ base)) b.
Proof.
  induction extra as [|k x extra Hk IH] using map_ind; intros Hlisted Hbase.
  { by rewrite (left_id_L ∅ (∪)). }
  destruct (Hlisted k) as [Hin Hseg]; [by rewrite lookup_insert_eq|].
  rewrite <- insert_union_l.
  change (JObj (<[k:=x]> (extra ∪ base))) with (setPath [k] x (JObj (extra ∪ base))).
  rewrite <- Hseg. apply doa_left; [done|]. apply IH; [|done].
  intros k' Hk'. apply Hlisted. rewrite lookup_insert_ne; [done|].
  intros <-. rewrite Hk in Hk'. by destruct Hk'.
Qed.

Lemma differOnlyAt_add_right paths (extra base : gmap string json) a :
  (∀ k, is_Some (extra !! k) → k ∈ paths ∧ segments k = [k]) →
  differOnlyAt paths a (JObj base) →
  differOnlyAt paths a (JObj (extra ∪ base)).
Proof.
  induction extra as [|k x extra Hk IH] using map_ind; intros Hlisted Hbase.
  { by rewrite (left_id_L ∅ (∪)). }
  destruct (Hlisted k) as [Hin Hseg]; [by rewrite lookup_insert_eq|].
  rewrite <- insert_union_l.
  change (JObj (<[k:=x]> (extra ∪ base))) with (setPath [k] x (JObj (extra ∪ base))).
  rewrite <- Hseg. apply doa_right; [done|]. apply IH; [|done].
  intros k' Hk'. apply Hlisted. rewrite lookup_insert_ne; [done|].
  intros <-. rewrite Hk in Hk'. by destruct Hk'.
Qed.

(** Two objects that have the same members under every key that is not
    listed differ only at the listed keys, for listed keys without a dot. *)
Lemma differOnlyAt_top_level (paths : list string) (m1 m2 : gmap string json) :
  (∀ p, p ∈ paths → Contains p "." = false) →
  (∀ k, k ∉ paths → m1 !! k = m2 !! k) →
  differOnlyAt paths (JObj m1) (JObj m2).
Proof.
  intros Hflat Hagree.
  set (listed := λ kv : string * json, kv.1 ∈ paths).
  assert (filter (λ kv, ¬ listed kv) m1 = filter (λ kv, ¬ listed kv) m2) as Hbase.
  { apply map_eq. intros k. rewrite !map_lookup_filter.
    destruct (decide (k ∈ paths)) as [Hin|Hnin].
    - destruct (m1 !! k), (m2 !! k); simpl; rewrite ?option_guard_False; by auto.
    - by rewrite (Hagree k Hnin). }
  assert (∀ m : gmap string json, ∀ k, is_Some (filter listed m !! k) →
            k ∈ paths ∧ segments k = [k]) as Hlisted.
  { intros m k [x Hx]. apply map_lookup_filter_Some in Hx as [_ Hin].
    split; [done|]. apply Split_no_separator. by apply Hflat. }
  rewrite <- (map_filter_union_complement listed m1).
  rewrite <- (map_filter_union_complement listed m2).
  apply differOnlyAt_add_left; [by apply Hlisted|].
  apply differOnlyAt_add_right; [by apply Hlisted|].
  rewrite Hbase. apply doa_same.
Qed.

End TopLevelKeys.

(* ===================================================================== *)
(** * The comparison job                                                   *)
(* ===================================================================== *)

Section ComparisonJob.
Import GoStrings Config Json Storage Main Spec Examples.

Variable Unmarshal : string → option json.
Variable sjson_Set : string → string → string → option string.

Lemma stored_app evs1 evs2 : stored (evs1 ++ evs2) = stored evs1 ++ stored evs2.
Proof. apply omap_app. Qed.

Lemma stored_store w l : stored (store w l) = [l].
Proof. unfold store. by destruct (dw_storeOk w). Qed.

Lemma valuesDiffer_same values : valuesDiffer values values = false.
Proof. induction values as [|v values IH]; simpl; [done|]. by rewrite String.eqb_refl. Qed.

Lemma rangeMainHeaders_same skip (h : Header) order acc :
  rangeMainHeaders skip h h order acc = acc.
Proof.
  revert acc. induction order as [|key rest IH]; intros acc; simpl; [done|].
  destruct (h !! key) as [values|]; [|by apply IH].
  destruct (default false (skip !! ToLower key)); [by apply IH|].
  rewrite Nat.eqb_refl, valuesDiffer_same. by apply IH.
Qed.

Lemma rangeTestHeaders_same skip (h : Header) order acc :
  rangeTestHeaders skip h h order acc = acc.
Proof.
  revert acc. induction order as [|key rest IH]; intros acc; simpl; [done|].
  destruct (h !! key) as [values|] eqn:Hkey; [|by apply IH].
  destruct (default false (skip !! ToLower key)); by apply IH.
Qed.

(** Equal header maps give an empty difference, in any visiting order. *)
Lemma compareHeaders_same skipHeaders mainOrder testOrder (h : Header) :
  compareHeaders skipHeaders mainOrder testOrder h h = [].
Proof. unfold compareHeaders. by rewrite rangeMainHeaders_same, rangeTestHeaders_same. Qed.

Lemma JSONBytesEqual_same a : JSONBytesEqual Unmarshal a a ≠ Some false.
Proof.
  unfold JSONBytesEqual. destruct (Unmarshal a); [|done]. by rewrite DeepEqual_refl.
Qed.

Lemma ComparisonType_payloads (b : bool) l mainBody testBody :
  ComparisonType (if b then withPayloads l mainBody testBody else l) = ComparisonType l.
Proof. by destruct b. Qed.

(** The body stage stores nothing, or one [body_diff] record for bodies
    that differ. *)
Lemma compareBodies_stored j w testStatus mainResBody testResBody :
  stored (compareBodies Unmarshal sjson_Set j w testStatus mainResBody testResBody) = []
  ∨ ∃ l, stored (compareBodies Unmarshal sjson_Set j w testStatus mainResBody testResBody) = [l]
       ∧ ComparisonType l = "body_diff" ∧ mainResBody ≠ testResBody.
Proof.
  unfold compareBodies.
  destruct (String.eqb (ToLower (Get_content_type (resp_Header (j_mainRes j))))
              "application/json"
            || String.eqb (ToLower (Get_content_type (resp_Header (j_mainRes j))))
                 "application/ld+json") eqn:Hct.
  - destruct (JSONBytesEqual Unmarshal mainResBody testResBody) as [[|]|] eqn:Hcmp;
      [by left| |by left].
    assert (mainResBody ≠ testResBody) as Hne.
    { intros ->. by apply JSONBytesEqual_same in Hcmp. }
    cbn [negb andb].
    destruct (testStatus =? StatusCode (j_mainRes j)).
    + destruct (maskBodies _ _ _ _) as [[srcBodyStr testBodyStr]|]; [|by left].
      destruct (JSONBytesEqual Unmarshal srcBodyStr testBodyStr) as [[|]|];
        [by left| |by left].
      right. eexists. rewrite stored_app, stored_store. split; [done|].
      by rewrite ComparisonType_payloads.
    + right. eexists. rewrite stored_app, stored_store. split; [done|].
      by rewrite ComparisonType_payloads.
  - unfold dummyBytesEqual. destruct (String.eqb_spec mainResBody testResBody) as [->|Hne].
    + by left.
    + right. eexists. cbn [negb andb]. rewrite stored_app, stored_store. split; [done|].
      by rewrite ComparisonType_payloads.
Qed.

(** Equal bodies pass the body stage without a record and without a panic. *)
Lemma compareBodies_same j w testStatus body :
  stored (compareBodies Unmarshal sjson_Set j w testStatus body body) = []
  ∧ EvPanic ∉ compareBodies Unmarshal sjson_Set j w testStatus body body.
Proof.
  unfold compareBodies.
  destruct (String.eqb (ToLower (Get_content_type (resp_Header (j_mainRes j))))
              "application/json"
            || String.eqb (ToLower (Get_content_type (resp_Header (j_mainRes j))))
                 "application/ld+json").
  - destruct (JSONBytesEqual Unmarshal body body) as [[|]|] eqn:Hcmp.
    + split; [done|]. intros Hin. repeat (apply elem_of_cons in Hin as [?|Hin]; [done|]).
      by apply elem_of_nil in Hin.
    + by apply JSONBytesEqual_same in Hcmp.
    + split; [done|]. intros Hin. repeat (apply elem_of_cons in Hin as [?|Hin]; [done|]).
      by apply elem_of_nil in Hin.
  - unfold dummyBytesEqual. rewrite String.eqb_refl. split; [done|].
    intros Hin. repeat (apply elem_of_cons in Hin as [?|Hin]; [done|]).
    by apply elem_of_nil in Hin.
Qed.

(** A job that stores a record got as far as comparing. *)
Lemma Do_stored_reaches j w :
  stored (Do Unmarshal sjson_Set j w) = []
  ∨ ∃ testRes testResBody, reachesComparison w testRes testResBody.
Proof.
  unfold Do, reachesComparison.
  destruct (dw_seekReqOk w); [|by left].
  destruct (dw_newRequestOk w); [|by left].
  destruct (dw_testDo w) as [testRes|]; [|by left].
  destruct (dw_seekMainOk w); [|by left].
  destruct (dw_readMainOk w); [|by left].
  destruct (resp_Body testRes) as [testResBody|] eqn:Hbody; [|by left].
  right. by exists testRes, testResBody.
Qed.

Ltac reached H :=
  destruct H as (Hseek & Hnew & Htest & Hseek' & Hread & Hbody);
  unfold Do; rewrite Hseek, Hnew, Htest, Hseek', Hread, Hbody; cbn [negb].

Lemma Do_status_diff j w testRes testResBody :
  reachesComparison w testRes testResBody →
  StatusCode testRes ≠ StatusCode (j_mainRes j) →
  stored (Do Unmarshal sjson_Set j w) = [baseLog j (StatusCode testRes) "status_diff"].
Proof.
  intros Hreach Hne. reached Hreach.
  destruct (Z.eqb_spec (StatusCode testRes) (StatusCode (j_mainRes j))); [done|].
  cbn [negb]. change (stored (?a :: ?b :: ?c)) with (stored c).
  by rewrite stored_app, stored_store.
Qed.

Lemma Do_header_diff j w testRes testResBody :
  reachesComparison w testRes testResBody →
  StatusCode testRes = StatusCode (j_mainRes j) →
  CompareHeaders (j_routeConfig j) = true →
  compareHeaders (SkipHeaders (j_routeConfig j)) (dw_mainHeaderOrder w)
    (dw_testHeaderOrder w) (resp_Header (j_mainRes j)) (resp_Header testRes) ≠ [] →
  ∃ l, stored (Do Unmarshal sjson_Set j w) = [l]
     ∧ ComparisonType l = "header_diff"
     ∧ DifferentHeaders l =
         compareHeaders (SkipHeaders (j_routeConfig j)) (dw_mainHeaderOrder w)
           (dw_testHeaderOrder w) (resp_Header (j_mainRes j)) (resp_Header testRes).
Proof.
  intros Hreach Heq Hch Hdiff. reached Hreach.
  rewrite Heq, Z.eqb_refl, Hch. cbn [negb andb].
  destruct (compareHeaders _ _ _ _ _) as [|name names] eqn:Hnames; [done|].
  cbn [length Nat.ltb Nat.leb].
  change (stored (?a :: ?b :: ?c)) with (stored c).
  eexists. rewrite stored_app, stored_store. split; [done|].
  by destruct (StoreRespBodies (j_routeConfig j)).
Qed.

Lemma Do_body_stage j w testRes testResBody :
  reachesComparison w testRes testResBody →
  StatusCode testRes = StatusCode (j_mainRes j) →
  CompareHeaders (j_routeConfig j) = false
  ∨ compareHeaders (SkipHeaders (j_routeConfig j)) (dw_mainHeaderOrder w)
      (dw_testHeaderOrder w) (resp_Header (j_mainRes j)) (resp_Header testRes) = [] →
  Do Unmarshal sjson_Set j w =
    EvHTTPReqDuration (req_Method (j_req j)) "test_upstream" (j_route j)
    :: EvHTTPReqCounter (status_code (StatusCode testRes)) (req_Method (j_req j))
         "test_upstream" (j_route j) "success"
    :: compareBodies Unmarshal sjson_Set j w (StatusCode testRes)
         (j_mainResBody j) testResBody.
Proof.
  intros Hreach Heq Hhdr. reached Hreach.
  rewrite Heq, Z.eqb_refl. cbn [negb].
  destruct Hhdr as [Hch|Hnone].
  - by rewrite Hch.
  - rewrite Hnone. by destruct (CompareHeaders (j_routeConfig j)).
Qed.


Lemma isJSONContentType_test (h : Header) :
  String.eqb (ToLower (Get_content_type h)) "application/json"
  || String.eqb (ToLower (Get_content_type h)) "application/ld+json" = true
  ↔ isJSONContentType h.
Proof.
  unfold isJSONContentType. rewrite orb_true_iff, !String.eqb_eq. tauto.
Qed.

Lemma JSONBytesEqual_equal a b v :
  Unmarshal a = Some v → Unmarshal b = Some v →
  JSONBytesEqual Unmarshal a b = Some true.
Proof.
  intros Ha Hb. unfold JSONBytesEqual. by rewrite Ha, Hb, DeepEqual_refl.
Qed.

Lemma JSONBytesEqual_different a b va vb :
  Unmarshal a = Some va → Unmarshal b = Some vb → va ≠ vb →
  JSONBytesEqual Unmarshal a b = Some false.
Proof.
  intros Ha Hb Hne. unfold JSONBytesEqual. rewrite Ha, Hb. f_equal.
  destruct (DeepEqual vb va) eqn:Heq; [|done]. by apply DeepEqual_eq in Heq as ->.
Qed.

Lemma JSONBytesEqual_false a b :
  JSONBytesEqual Unmarshal a b = Some false →
  ∃ va vb, Unmarshal a = Some va ∧ Unmarshal b = Some vb ∧ va ≠ vb.
Proof.
  unfold JSONBytesEqual. destruct (Unmarshal a) as [va|]; [|done].
  destruct (Unmarshal b) as [vb|]; [|done]. intros [= Heq].
  exists va, vb. split; [done|]. split; [done|]. intros ->.
  by rewrite DeepEqual_refl in Heq.
Qed.

(** The body stage on a divergence: one [body_diff] record. *)
Lemma compareBodies_on_divergence j w testResBody :
  bodiesDiverge Unmarshal sjson_Set j testResBody →
  ∃ l, stored (compareBodies Unmarshal sjson_Set j w (StatusCode (j_mainRes j))
                 (j_mainResBody j) testResBody) = [l]
       ∧ ComparisonType l = "body_diff".
Proof.
  unfold compareBodies. cbv beta zeta. rewrite Z.eqb_refl.
  intros [[Hjson (vm & vt & main' & test' & vm' & vt' & Hvm & Hvt & Hne
                    & Hmask & Hvm' & Hvt' & Hne')]|[[_ Hother] Hne]].
  - apply isJSONContentType_test in Hjson. rewrite Hjson.
    rewrite (JSONBytesEqual_different _ _ vm vt Hvm Hvt Hne).
    cbn [negb andb]. rewrite Hmask.
    rewrite (JSONBytesEqual_different _ _ vm' vt' Hvm' Hvt' Hne').
    eexists. rewrite stored_app, stored_store. split; [done|].
    by rewrite ComparisonType_payloads.
  - destruct (String.eqb _ "application/json" || String.eqb _ "application/ld+json")
      eqn:Hjson; [by apply isJSONContentType_test in Hjson|].
    unfold dummyBytesEqual. rewrite andb_false_r.
    destruct (String.eqb_spec (j_mainResBody j) testResBody) as [|_]; [done|].
    eexists. rewrite stored_app, stored_store. split; [done|].
    by rewrite ComparisonType_payloads.
Qed.

(** The body stage without a divergence: the verdict [identical] and
    nothing else. *)
Lemma compareBodies_on_agreement j w testResBody :
  bodiesAgree Unmarshal sjson_Set j testResBody →
  compareBodies Unmarshal sjson_Set j w (StatusCode (j_mainRes j))
    (j_mainResBody j) testResBody
  = [EvLog "info" "Equal body response";
     EvComparisonResults (j_route j) (req_Method (j_req j)) "identical"].
Proof.
  unfold compareBodies. cbv beta zeta. rewrite Z.eqb_refl.
  intros [[Hjson (vm & vt & Hvm & Hvt & Hsame)]|[[_ Hother] Heq]].
  - apply isJSONContentType_test in Hjson. rewrite Hjson.
    destruct (JSONBytesEqual Unmarshal (j_mainResBody j) testResBody) as [[|]|] eqn:Hcmp.
    + done.
    + cbn [negb andb].
      destruct Hsame as [->|(main' & test' & v' & Hmask & Hmain' & Htest')].
      { by rewrite (JSONBytesEqual_equal _ _ vt Hvm Hvt) in Hcmp. }
      by rewrite Hmask, (JSONBytesEqual_equal _ _ v' Hmain' Htest').
    + unfold JSONBytesEqual in Hcmp. by rewrite Hvm, Hvt in Hcmp.
  - destruct (String.eqb _ "application/json" || String.eqb _ "application/ld+json")
      eqn:Hjson; [by apply isJSONContentType_test in Hjson|].
    unfold dummyBytesEqual. rewrite andb_false_r, Heq.
    by rewrite String.eqb_refl.
Qed.

(** A record of the body stage comes from a divergence of the bodies. *)
Lemma compareBodies_divergence_found j w testResBody l :
  l ∈ stored (compareBodies Unmarshal sjson_Set j w (StatusCode (j_mainRes j))
                (j_mainResBody j) testResBody) →
  ComparisonType l = "body_diff"
  ∧ j_mainResBody j ≠ testResBody
  ∧ (isJSONContentType (resp_Header (j_mainRes j)) →
     jsonBodiesDiverge Unmarshal sjson_Set j testResBody).
Proof.
  unfold compareBodies. cbv beta zeta. rewrite Z.eqb_refl.
  destruct (String.eqb _ "application/json" || String.eqb _ "application/ld+json")
    eqn:Hjson.
  - destruct (JSONBytesEqual Unmarshal (j_mainResBody j) testResBody) as [[|]|] eqn:Hcmp;
      cbn [negb andb]; [by intros ?%elem_of_nil| |by intros ?%elem_of_nil].
    destruct (maskBodies _ _ _ _) as [[main' test']|] eqn:Hmask;
      [|by intros ?%elem_of_nil].
    destruct (JSONBytesEqual Unmarshal main' test') as [[|]|] eqn:Hcmp';
      [by intros ?%elem_of_nil| |by intros ?%elem_of_nil].
    rewrite stored_app, stored_store. intros ->%list_elem_of_singleton.
    rewrite ComparisonType_payloads. split; [done|].
    destruct (JSONBytesEqual_false _ _ Hcmp) as (vm & vt & Hvm & Hvt & Hne).
    destruct (JSONBytesEqual_false _ _ Hcmp') as (vm' & vt' & Hvm' & Hvt' & Hne').
    split; [|intros _; by exists vm, vt, main', test', vm', vt'].
    intros Heq. rewrite Heq in Hvm. congruence.
  - unfold dummyBytesEqual. rewrite andb_false_r.
    destruct (String.eqb_spec (j_mainResBody j) testResBody) as [|Hne];
      [by intros ?%elem_of_nil|].
    rewrite stored_app, stored_store. intros ->%list_elem_of_singleton.
    rewrite ComparisonType_payloads. split; [done|]. split; [done|].
    intros ?%isJSONContentType_test. congruence.
Qed.

Lemma headers_pass j w testRes :
  ¬ headersDiverge j w testRes
  ↔ CompareHeaders (j_routeConfig j) = false
    ∨ compareHeaders (SkipHeaders (j_routeConfig j)) (dw_mainHeaderOrder w)
        (dw_testHeaderOrder w) (resp_Header (j_mainRes j)) (resp_Header testRes) = [].
Proof.
  unfold headersDiverge. destruct (CompareHeaders (j_routeConfig j)).
  - destruct (compareHeaders _ _ _ _ _) as [|name names].
    + split; [by right|]. by intros _ [_ ?].
    + split; [|by intros [|]]. intros Hno. by destruct Hno.
  - split; [by left|]. by intros _ [? _].
Qed.

Lemma headersDiverge_dec j w testRes :
  headersDiverge j w testRes ∨ ¬ headersDiverge j w testRes.
Proof.
  unfold headersDiverge. destruct (CompareHeaders (j_routeConfig j)).
  - destruct (compareHeaders _ _ _ _ _) as [|name names].
    + right. by intros [_ ?].
    + by left.
  - right. by intros [? _].
Qed.

(** C6 (as the code has it).  A job hands at most one record to the
    sink.  A record comes only from a job that got as far as comparing,
    and it reports the first comparison that diverges in the order
    status, headers, body.  In that order every divergence is recorded:
    a status difference as [status_diff] whatever the headers and bodies
    are, a header difference under equal statuses as [header_diff]
    whatever the bodies are, and a body divergence under equal statuses
    and headers that pass as [body_diff]; bodies that agree give the
    verdict [identical] and no record.  A test response identical to the
    main response stores no record; the metric [identical] is then
    emitted for a content type other than JSON, and for a JSON content
    type exactly when the body parses. *)
Theorem C6_one_record_on_first_divergence (j : upstreamTestJob) (w : DoWorld) :
  (length (stored (Do Unmarshal sjson_Set j w)) ≤ 1)%nat
  ∧ (∀ l, l ∈ stored (Do Unmarshal sjson_Set j w) →
       ∃ testRes testResBody,
         reachesComparison w testRes testResBody
         ∧ firstDivergence Unmarshal sjson_Set j w testRes testResBody l)
  ∧ (∀ testRes testResBody,
       reachesComparison w testRes testResBody →
       (StatusCode testRes ≠ StatusCode (j_mainRes j) →
        ∃ l, stored (Do Unmarshal sjson_Set j w) = [l]
           ∧ ComparisonType l = "status_diff")
       ∧ (StatusCode testRes = StatusCode (j_mainRes j) →
          headersDiverge j w testRes →
          ∃ l, stored (Do Unmarshal sjson_Set j w) = [l]
             ∧ ComparisonType l = "header_diff")
       ∧ (StatusCode testRes = StatusCode (j_mainRes j) →
          ¬ headersDiverge j w testRes →
          bodiesDiverge Unmarshal sjson_Set j testResBody →
          ∃ l, stored (Do Unmarshal sjson_Set j w) = [l]
             ∧ ComparisonType l = "body_diff")
       ∧ (StatusCode testRes = StatusCode (j_mainRes j) →
          ¬ headersDiverge j w testRes →
          bodiesAgree Unmarshal sjson_Set j testResBody →
          stored (Do Unmarshal sjson_Set j w) = []
          ∧ EvComparisonResults (j_route j) (req_Method (j_req j)) "identical"
              ∈ Do Unmarshal sjson_Set j w))
  ∧ (∀ testRes,
       reachesComparison w testRes (j_mainResBody j) →
       StatusCode testRes = StatusCode (j_mainRes j) →
       resp_Header testRes = resp_Header (j_mainRes j) →
       stored (Do Unmarshal sjson_Set j w) = []
       ∧ (EvPanic ∉ Do Unmarshal sjson_Set j w)
       ∧ (isJSONContentType (resp_Header (j_mainRes j)) →
          (EvComparisonResults (j_route j) (req_Method (j_req j)) "identical"
             ∈ Do Unmarshal sjson_Set j w)
          ↔ is_Some (Unmarshal (j_mainResBody j)))
       ∧ (isOtherContentType (resp_Header (j_mainRes j)) →
          EvComparisonResults (j_route j) (req_Method (j_req j)) "identical"
            ∈ Do Unmarshal sjson_Set j w)).
Proof.
  assert (∀ testRes testResBody,
            reachesComparison w testRes testResBody →
            (∃ l, stored (Do Unmarshal sjson_Set j w) = [l]
                ∧ firstDivergence Unmarshal sjson_Set j w testRes testResBody l)
            ∨ stored (Do Unmarshal sjson_Set j w) = []) as Hcases.
  { intros testRes testResBody Hreach.
    destruct (decide (StatusCode testRes = StatusCode (j_mainRes j))) as [Heq|Hne].
    - destruct (headersDiverge_dec j w testRes) as [[Hch Hdiff]|Hpass].
      + destruct (Do_header_diff j w testRes testResBody Hreach Heq Hch Hdiff)
          as (l & Hl & Hkind & Hnames).
        left. exists l. split; [done|]. right. left. by repeat split.
      + rewrite (Do_body_stage j w testRes testResBody Hreach Heq)
          by (by apply headers_pass).
        change (stored (?a :: ?b :: ?c)) with (stored c). rewrite Heq.
        destruct (stored (compareBodies _ _ _ _ _ _ _)) as [|l ls] eqn:Hstored;
          [by right|].
        destruct (compareBodies_stored j w (StatusCode (j_mainRes j)) (j_mainResBody j)
                    testResBody) as [Hnone|(l' & Hl' & _)]; [congruence|].
        destruct (compareBodies_divergence_found j w testResBody l)
          as (Hkind & Hbytes & Hsem); [rewrite Hstored; apply list_elem_of_here|].
        left. exists l. split; [congruence|]. right. right. by repeat split.
    - left. eexists. split; [by eapply Do_status_diff|]. by left. }
  split; [|split; [|split]].
  - destruct (Do_stored_reaches j w) as [->|(testRes & testResBody & Hreach)]; [simpl; lia|].
    destruct (Hcases _ _ Hreach) as [(l & -> & _)| ->]; simpl; lia.
  - intros l Hl.
    destruct (Do_stored_reaches j w) as [Hnone|(testRes & testResBody & Hreach)].
    { rewrite Hnone in Hl. by apply elem_of_nil in Hl. }
    exists testRes, testResBody. split; [done|].
    destruct (Hcases _ _ Hreach) as [(l' & Hl' & Hfirst)|Hnone].
    + rewrite Hl' in Hl. by apply list_elem_of_singleton in Hl as ->.
    + rewrite Hnone in Hl. by apply elem_of_nil in Hl.
  - intros testRes testResBody Hreach. split; [|split; [|split]].
    + intros Hne. eexists. split; [by eapply Do_status_diff|done].
    + intros Heq [Hch Hdiff].
      destruct (Do_header_diff j w testRes testResBody Hreach Heq Hch Hdiff)
        as (l & Hl & Hkind & _). by exists l.
    + intros Heq Hpass%headers_pass Hdiverge.
      rewrite (Do_body_stage j w testRes testResBody Hreach Heq Hpass).
      change (stored (?a :: ?b :: ?c)) with (stored c). rewrite Heq.
      by apply compareBodies_on_divergence.
    + intros Heq Hpass%headers_pass Hagree.
      rewrite (Do_body_stage j w testRes testResBody Hreach Heq Hpass), Heq.
      rewrite (compareBodies_on_agreement j w testResBody Hagree).
      split; [done|]. rewrite !elem_of_cons. tauto.
  - intros testRes Hreach Heq Hhdr.
    rewrite (Do_body_stage j w testRes _ Hreach Heq)
      by (right; rewrite Hhdr; apply compareHeaders_same).
    destruct (compareBodies_same j w (StatusCode testRes) (j_mainResBody j))
      as [Hnone Hpanic].
    split; [done|]. split.
    { intros [?|[?|?]%elem_of_cons]%elem_of_cons; done. }
    rewrite Heq. split.
    + intros Hjson. split.
      * intros [?|[?|Hin]%elem_of_cons]%elem_of_cons; [done..|].
        destruct (Unmarshal (j_mainResBody j)) as [v|] eqn:Hparse; [by eexists|].
        revert Hin. unfold compareBodies. cbv beta zeta.
        apply isJSONContentType_test in Hjson. rewrite Hjson.
        unfold JSONBytesEqual. rewrite Hparse.
        intros [?|?%elem_of_nil]%elem_of_cons; done.
      * intros [v Hparse].
        rewrite (compareBodies_on_agreement j w (j_mainResBody j)).
        { rewrite !elem_of_cons. tauto. }
        left. split; [done|]. exists v, v. by auto.
    + intros Hother.
      rewrite (compareBodies_on_agreement j w (j_mainResBody j)).
      { rewrite !elem_of_cons. tauto. }
      right. by split.
Qed.



End ComparisonJob.

Section Scenarios.
Import GoStrings Config Json Storage Main Spec Examples.

Example scenario_json_path_mask :
  Do tableUnmarshal tableSet jsonJob (testAnswers (jsonAnswer 200 "Tue" testBodyText))
  = [EvHTTPReqDuration "GET" "test_upstream" "GET:/a";
     EvHTTPReqCounter (status_code 200) "GET" "test_upstream" "GET:/a" "success";
     EvLog "info" "Equal body response";
     EvComparisonResults "GET:/a" "GET" "identical"].
Proof. by vm_compute. Qed.

Example scenario_status_divergence :
  stored (Do tableUnmarshal tableSet jsonJob
            (testAnswers (jsonAnswer 500 "Tue" testBodyText)))
  = [baseLog jsonJob 500 "status_diff"].
Proof. by vm_compute. Qed.

(** A body divergence that the masking does not hide: the identifiers
    differ and only the time stamp is listed. *)
Example scenario_body_divergence :
  let j := {| j_req := exampleRequest; j_route := "GET:/a"; j_routeConfig := jsonPolicy;
              j_reqBodyBuffer := EmptyString;
              j_mainRes := jsonAnswer 200 "Mon" (recordText "2025-01-01" "a1");
              j_mainResBody := recordText "2025-01-01" "a1" |} in
  bodiesDiverge recordUnmarshal recordSet j (recordText "2025-02-02" "b2")
  ∧ ComparisonType
      <$> stored (Do recordUnmarshal recordSet j
                    (testAnswers (jsonAnswer 200 "Tue" (recordText "2025-02-02" "b2"))))
    = ["body_diff"].
Proof.
  split; [|by vm_compute]. left. split; [by left|].
  exists (recordTree "2025-01-01" "a1"), (recordTree "2025-02-02" "b2"),
    (recordText "useless" "a1"), (recordText "useless" "b2"),
    (recordTree "useless" "a1"), (recordTree "useless" "b2").
  repeat split; by vm_compute.
Qed.




(** C6 as stated fails: the two upstreams give the same answer, an empty
    body declared as JSON, and the job emits no comparison metric; it
    ends in an error line of the log. *)
Lemma C6_counterexample_identical_unparsable :
  j_mainRes Observations.emptyJob = jsonAnswer 204 "Mon" EmptyString
  ∧ j_mainResBody Observations.emptyJob = EmptyString
  ∧ tableUnmarshal EmptyString = None
  ∧ Do tableUnmarshal tableSet Observations.emptyJob
      (testAnswers (jsonAnswer 204 "Mon" EmptyString))
    = [EvHTTPReqDuration "GET" "test_upstream" "GET:/a";
       EvHTTPReqCounter (status_code 204) "GET" "test_upstream" "GET:/a" "success";
       EvLog "error" "error in response equality check"].
Proof. by vm_compute. Qed.

End Scenarios.

(* ===================================================================== *)
(** * Route keys: parsing and the method part *)
(* ===================================================================== *)

Section RouteKeyParsing.
Import GoStrings Config.

Lemma Contains_single_nil sep : Contains EmptyString (String sep EmptyString) = false.
Proof. reflexivity. Qed.

Lemma Cut_None_iff s sep :
  Cut s sep = None ↔ Contains s (String sep EmptyString) = false.
Proof.
  induction s as [|a s IH]; [done|].
  rewrite Contains_cons. cbn [Cut].
  destruct (Ascii.eqb a sep); simpl; [done|].
  destruct (Cut s sep) as [[before after]|]; [|tauto].
  split; [done|]. intros Hs. apply IH in Hs. done.
Qed.

Lemma Cut_Some s sep before after :
  Cut s sep = Some (before, after) →
  s = before +:+ String sep after
  ∧ Contains before (String sep EmptyString) = false.
Proof.
  revert before. induction s as [|a s IH]; intros before Hcut; [done|].
  cbn [Cut] in Hcut. destruct (Ascii.eqb_spec a sep) as [->|Hne].
  - by simplify_eq.
  - destruct (Cut s sep) as [[before' after']|]; [|done]. simplify_eq.
    destruct (IH before' eq_refl) as [-> Hb]. split; [done|].
    rewrite Contains_cons, Hb. by apply Ascii.eqb_neq in Hne as ->.
Qed.

(** X1.  [ParseRoute] splits at the first colon and nowhere else: putting
    the two parts back around a colon gives the route, and the method
    part has no colon; a route without a colon is a path under the
    wildcard method. *)
Theorem ParseRoute_first_colon (route : string) :
  if Contains route ":"
  then route = (ParseRoute route).1 +:+ ":" +:+ (ParseRoute route).2
       ∧ Contains (ParseRoute route).1 ":" = false
  else ParseRoute route = ("*", route).
Proof.
  unfold ParseRoute. cbn [SplitN].
  destruct (Cut route ":") as [[before after]|] eqn:Hcut.
  - destruct (Cut_Some _ _ _ _ Hcut) as [Hroute Hb].
    destruct (Contains route ":") eqn:Hc; [done|].
    apply Cut_None_iff in Hc. congruence.
  - apply Cut_None_iff in Hcut. by rewrite Hcut.
Qed.

Lemma Cut_append before after sep :
  Contains before (String sep EmptyString) = false →
  Cut (before +:+ String sep after) sep = Some (before, after).
Proof.
  induction before as [|a before IH]; intros Hb.
  - simpl. by rewrite Ascii.eqb_refl.
  - rewrite Contains_cons in Hb. apply orb_false_iff in Hb as [Ha Hb].
    change (String a before +:+ String sep after)
      with (String a (before +:+ String sep after)).
    cbn [Cut]. by rewrite Ha, (IH Hb).
Qed.

Lemma ParseRoute_join m p :
  Contains m ":" = false → ParseRoute (m +:+ ":" +:+ p) = (m, p).
Proof.
  intros Hm. unfold ParseRoute. cbn [SplitN].
  change (m +:+ ":" +:+ p) with (m +:+ String ":" p).
  by rewrite (Cut_append m p ":" Hm).
Qed.

Lemma upper_byte_idemp c : upper_byte (upper_byte c) = upper_byte c.
Proof. by destruct c as [[] [] [] [] [] [] [] []]. Qed.

Lemma ToUpper_idemp s : ToUpper (ToUpper s) = ToUpper s.
Proof. induction s as [|c s IH]; [done|]. simpl. by rewrite upper_byte_idemp, IH. Qed.

Lemma ToUpper_no_colon m : Contains m ":" = false → Contains (ToUpper m) ":" = false.
Proof.
  induction m as [|c m IH]; [done|]. cbn [ToUpper]. rewrite !Contains_cons.
  intros [Hc Hm]%orb_false_iff. by rewrite upper_byte_colon, Hc, (IH Hm).
Qed.

(** X2.  The method of a pattern is compared as written with the
    upper-cased method of the request: a pattern whose method has a
    lower-case letter matches no route that [FormatRoute] builds. *)
Theorem MatchRoute_lower_case_method (path_Match : string → string → bool)
    (method path configMethod configPath : string) :
  Contains method ":" = false →
  Contains configMethod ":" = false →
  ToUpper configMethod ≠ configMethod →
  MatchRoute path_Match (FormatRoute method path)
    (configMethod +:+ ":" +:+ configPath) = false.
Proof.
  intros Hm Hcm Hlower. unfold MatchRoute, FormatRoute.
  rewrite (ParseRoute_join (ToUpper method) path (ToUpper_no_colon _ Hm)).
  rewrite (ParseRoute_join configMethod configPath Hcm).
  destruct (String.eqb_spec configMethod "*") as [->|_]; [done|].
  destruct (String.eqb_spec configMethod (ToUpper method)) as [->|_]; [|done].
  by rewrite ToUpper_idemp in Hlower.
Qed.

Lemma MatchRoute_lower_case_method_witness :
  MatchRoute (λ _ _, true) (FormatRoute "GET" "/health") ("get" +:+ ":" +:+ "/health")
  = false.
Proof.
  apply (MatchRoute_lower_case_method (λ _ _, true) "GET" "/health" "get" "/health");
    [reflexivity|reflexivity|]. by vm_compute.
Defined.

End RouteKeyParsing.

(* ===================================================================== *)
(** * Path patterns *)
(* ===================================================================== *)

Section PathPatterns.
Import GoStrings Config.

Lemma string_app_cons a s t : String a s +:+ t = String a (s +:+ t).
Proof. reflexivity. Qed.

Lemma string_length_app s t : String.length (s +:+ t) = (String.length s + String.length t)%nat.
Proof. induction s as [|a s IH]; [done|]. rewrite string_app_cons. simpl. by rewrite IH. Qed.

Lemma drop_bytes_app s t : drop_bytes (String.length s) (s +:+ t) = t.
Proof. induction s as [|a s IH]; [by destruct t|]. by rewrite string_app_cons. Qed.

Lemma take_bytes_app s t : take_bytes (String.length s) (s +:+ t) = s.
Proof.
  induction s as [|a s IH]; [by destruct t|]. rewrite string_app_cons. simpl. by rewrite IH.
Qed.

Lemma HasSuffix_app s suffix : HasSuffix (s +:+ suffix) suffix = true.
Proof.
  unfold HasSuffix. rewrite string_length_app.
  replace (String.length s + String.length suffix - String.length suffix)%nat
    with (String.length s) by lia.
  rewrite drop_bytes_app, String.eqb_refl, andb_true_r. apply Nat.leb_le. lia.
Qed.

Lemma TrimSuffix_app s suffix : TrimSuffix (s +:+ suffix) suffix = s.
Proof.
  unfold TrimSuffix. rewrite HasSuffix_app, string_length_app.
  replace (String.length s + String.length suffix - String.length suffix)%nat
    with (String.length s) by lia.
  apply take_bytes_app.
Qed.

Lemma Contains_true_cons a s sub : Contains s sub = true → Contains (String a s) sub = true.
Proof. intros H. cbn [Contains]. rewrite H. apply orb_true_r. Qed.

(** A string that contains [sub] after its first bytes contains it. *)
Lemma Contains_TrimLeft s c sub :
  Contains (TrimLeft s c) sub = true → Contains s sub = true.
Proof.
  induction s as [|a s IH]; [done|]. cbn [TrimLeft].
  destruct (Ascii.eqb a c); [|done]. intros H. by apply Contains_true_cons, IH.
Qed.

Lemma HasPrefix_extend s pre sub :
  HasPrefix pre sub = true → HasPrefix s pre = true → HasPrefix s sub = true.
Proof.
  revert s pre. induction sub as [|b sub IH]; intros s pre Hsub Hpre; [by destruct s|].
  destruct pre as [|p pre]; [done|]. destruct s as [|a s]; [done|].
  cbn [HasPrefix] in *. destruct (Ascii.eqb_spec a p) as [->|]; [|done].
  destruct (Ascii.eqb p b); [|done]. by eapply IH.
Qed.

Lemma Contains_of_prefix s pre sub :
  HasPrefix s pre = true → Contains pre sub = true → Contains s sub = true.
Proof.
  revert s. induction pre as [|p pre IH]; intros s Hpre Hsub.
  - cbn [Contains] in Hsub. rewrite orb_false_r in Hsub.
    destruct sub; [|done]. by destruct s.
  - destruct s as [|a s]; [done|]. cbn [HasPrefix] in Hpre.
    destruct (Ascii.eqb_spec a p) as [->|]; [|done].
    cbn [Contains] in Hsub. apply orb_true_iff in Hsub as [Hhere|Hlater].
    + cbn [Contains]. apply orb_true_iff. left.
      eapply HasPrefix_extend; [exact Hhere|]. cbn [HasPrefix].
      by rewrite Ascii.eqb_refl.
    + apply Contains_true_cons. by apply IH.
Qed.

Lemma HasPrefix_TrimRight s c : HasPrefix s (TrimRight s c) = true.
Proof.
  induction s as [|a s IH]; [done|]. cbn [TrimRight].
  destruct (TrimRight s c) as [|b r] eqn:Hr.
  - destruct (Ascii.eqb a c); [done|]. cbn [HasPrefix]. rewrite Ascii.eqb_refl.
    by destruct s.
  - cbn [HasPrefix]. by rewrite Ascii.eqb_refl.
Qed.

Lemma Contains_Trim s c sub : Contains (Trim s c) sub = true → Contains s sub = true.
Proof.
  unfold Trim. intros H. apply (Contains_TrimLeft s c).
  eapply Contains_of_prefix; [apply HasPrefix_TrimRight|done].
Qed.

Lemma Split_nonempty s sep : Split s sep ≠ [].
Proof.
  induction s as [|a s IH]; [done|]. cbn [Split].
  destruct (Ascii.eqb a sep); [done|]. by destruct (Split s sep).
Qed.

(** A first piece that is empty and followed by more pieces comes from a
    leading separator. *)
Lemma Split_empty_head s sep rest :
  Split s sep = EmptyString :: rest → rest ≠ [] →
  ∃ s', s = String sep s'.
Proof.
  destruct s as [|a s]; [by intros [= <-]|]. cbn [Split].
  destruct (Ascii.eqb_spec a sep) as [->|_]; [by eauto|].
  by destruct (Split s sep).
Qed.

(** A piece equal to ["*"] that is not the last one is followed by a
    separator in the string. *)
Lemma Split_star_not_last s (j : nat) :
  Split s "/" !! j = Some "*" → (S j < length (Split s "/"))%nat →
  Contains s "*/" = true.
Proof.
  revert j. induction s as [|a s IH]; intros j Hj Hlen.
  { destruct j; simpl in *; [done|lia]. }
  cbn [Split] in Hj, Hlen. destruct (Ascii.eqb_spec a "/") as [->|Hne].
  - destruct j as [|j]; [done|]. apply Contains_true_cons. apply (IH j); [done|].
    simpl in Hlen. lia.
  - destruct (Split s "/") as [|piece rest] eqn:Hsplit; [by apply Split_nonempty in Hsplit|].
    destruct j as [|j].
    + simpl in Hj. injection Hj as -> ->.
      destruct (Split_empty_head s "/" rest Hsplit) as [s' ->].
      { intros ->. simpl in Hlen. lia. }
      cbn [Contains HasPrefix]. rewrite !Ascii.eqb_refl. by rewrite HasPrefix_empty.
    + apply Contains_true_cons. apply (IH (S j)); [done|]. simpl in *. lia.
Qed.

Lemma hasOtherWildcards_from_true i n segs :
  hasOtherWildcards_from i n segs = true →
  ∃ j, segs !! j = Some "*" ∧ (i + j)%nat ≠ (n - 1)%nat.
Proof.
  revert i. induction segs as [|seg rest IH]; intros i H; [done|].
  cbn [hasOtherWildcards_from] in H.
  destruct (String.eqb_spec seg "*") as [->|_].
  - destruct (Nat.eqb_spec i (n - 1)) as [Hi|Hi].
    + destruct (IH (S i) H) as (j & Hj & Hne). exists (S j). split; [done|lia].
    + exists 0%nat. split; [done|lia].
  - destruct (IH (S i) H) as (j & Hj & Hne). exists (S j). split; [done|lia].
Qed.

Lemma no_star_slash prefix :
  Contains prefix "*" = false → Contains (prefix +:+ "/*") "*/" = false.
Proof.
  induction prefix as [|a prefix IH]; [done|].
  rewrite Contains_cons. intros [Ha Hp]%orb_false_iff.
  rewrite string_app_cons. cbn [Contains HasPrefix]. by rewrite Ha, (IH Hp).
Qed.

Lemma Contains_app_r s t sub : Contains t sub = true → Contains (s +:+ t) sub = true.
Proof.
  intros H. induction s as [|a s IH]; [done|].
  rewrite string_app_cons. by apply Contains_true_cons.
Qed.

Lemma isTrailingWildcard_app prefix :
  Contains prefix "*" = false → isTrailingWildcard (prefix +:+ "/*") = true.
Proof.
  intros Hp. unfold isTrailingWildcard. rewrite HasSuffix_app. cbn [andb].
  apply negb_true_iff.
  destruct (hasOtherWildcards _) eqn:Hother; [|done].
  apply hasOtherWildcards_from_true in Hother as (j & Hj & Hne).
  assert (j < length (Split (Trim (prefix +:+ "/*") "/") "/"))%nat as Hlt.
  { apply lookup_lt_is_Some. by eexists. }
  assert (Contains (Trim (prefix +:+ "/*") "/") "*/" = true) as Hc.
  { apply (Split_star_not_last _ j); [done|lia]. }
  apply Contains_Trim in Hc. by rewrite no_star_slash in Hc.
Qed.

Lemma HasPrefix_app s t : HasPrefix (s +:+ t) s = true.
Proof.
  induction s as [|a s IH]; [by destruct t|].
  rewrite string_app_cons. cbn [HasPrefix]. by rewrite Ascii.eqb_refl.
Qed.

(** X3.  A pattern [prefix/*] whose prefix has no wildcard is a test on
    the bytes of the request path: it matches exactly the paths that
    start with [prefix], whether or not the prefix ends at a segment
    boundary. *)
Theorem matchPath_trailing_wildcard (path_Match : string → string → bool)
    (requestPath prefix : string) :
  Contains prefix "*" = false →
  matchPath path_Match requestPath (prefix +:+ "/*") = HasPrefix requestPath prefix.
Proof.
  intros Hp. unfold matchPath.
  destruct (String.eqb_spec requestPath (prefix +:+ "/*")) as [->|_].
  { by rewrite HasPrefix_app. }
  rewrite (Contains_app_r prefix "/*" "*" eq_refl).
  unfold matchSegmentWildcards.
  by rewrite (isTrailingWildcard_app prefix Hp), TrimSuffix_app.
Qed.

Lemma matchPath_trailing_wildcard_witness :
  matchPath (λ _ _, false) "/api/users-archive/7" ("/api/users" +:+ "/*")
  = HasPrefix "/api/users-archive/7" "/api/users".
Proof.
  exact (matchPath_trailing_wildcard (λ _ _, false) "/api/users-archive/7"
           "/api/users" eq_refl).
Defined.

(** X4.  The pattern path ["*"] matches the request paths that have
    exactly one segment, and no others. *)
Theorem matchPath_lone_wildcard (path_Match : string → string → bool)
    (requestPath : string) :
  matchPath path_Match requestPath "*" = true
  ↔ length (pathSegments requestPath) = 1%nat.
Proof.
  unfold matchPath.
  destruct (String.eqb_spec requestPath "*") as [->|_]; [done|].
  change (Contains "*" "*") with true. cbn match.
  rewrite (matchSegmentWildcards_segments requestPath "*" eq_refl).
  change (pathSegments "*") with ["*"]. split; [by intros [? _]|].
  intros Hlen. split; [done|].
  destruct (pathSegments requestPath) as [|seg [|??]]; simplify_eq/=.
  repeat constructor.
Qed.

Lemma TrimRight_slash s c : TrimRight (s +:+ String c EmptyString) c = TrimRight s c.
Proof.
  induction s as [|a s IH]; [simpl; by rewrite Ascii.eqb_refl|].
  rewrite string_app_cons. cbn [TrimRight]. by rewrite IH.
Qed.

Lemma TrimLeft_slash s c :
  TrimLeft (s +:+ String c EmptyString) c
  = match TrimLeft s c with
    | EmptyString => EmptyString
    | t => t +:+ String c EmptyString
    end.
Proof.
  induction s as [|a s IH]; [simpl; by rewrite Ascii.eqb_refl|].
  rewrite string_app_cons. cbn [TrimLeft]. by destruct (Ascii.eqb a c).
Qed.

Lemma Trim_trailing s c : Trim (s +:+ String c EmptyString) c = Trim s c.
Proof.
  unfold Trim. rewrite TrimLeft_slash.
  destruct (TrimLeft s c) as [|a t] eqn:Ht; [done|]. by rewrite TrimRight_slash.
Qed.

Lemma Trim_leading s c : Trim (String c s) c = Trim s c.
Proof. unfold Trim. cbn [TrimLeft]. by rewrite Ascii.eqb_refl. Qed.

(** X5.  When the pattern is not of the trailing-wildcard form, slashes
    around the request path do not matter: one more slash in front or at
    the end gives the same answer. *)
Theorem matchSegmentWildcards_outer_slashes (requestPath configPath : string) :
  isTrailingWildcard configPath = false →
  matchSegmentWildcards (requestPath +:+ "/") configPath
    = matchSegmentWildcards requestPath configPath
  ∧ matchSegmentWildcards ("/" +:+ requestPath) configPath
    = matchSegmentWildcards requestPath configPath.
Proof.
  intros Htrail. unfold matchSegmentWildcards, pathSegments. rewrite Htrail.
  change ("/" +:+ requestPath) with (String "/" requestPath).
  by rewrite Trim_trailing, Trim_leading.
Qed.

Lemma matchSegmentWildcards_outer_slashes_witness :
  matchSegmentWildcards ("/u/42/p" +:+ "/") "/u/*/p"
    = matchSegmentWildcards "/u/42/p" "/u/*/p"
  ∧ matchSegmentWildcards ("/" +:+ "/u/42/p") "/u/*/p"
    = matchSegmentWildcards "/u/42/p" "/u/*/p".
Proof.
  exact (matchSegmentWildcards_outer_slashes "/u/42/p" "/u/*/p" eq_refl).
Defined.

End PathPatterns.

(* ===================================================================== *)
(** * Lookup of the policy of a route *)
(* ===================================================================== *)

Section Lookup.
Import GoStrings Config Spec Examples Startup.

Variable path_Match : string → string → bool.

Lemma MatchRoute_refl route : MatchRoute path_Match route route = true.
Proof.
  unfold MatchRoute, matchPath. destruct (ParseRoute route) as [method path].
  rewrite !String.eqb_refl. by destruct (String.eqb method "*").
Qed.

Lemma RangeOrder_elem_of {V} (m : gmap string V) order k :
  RangeOrder m order → k ∈ order ↔ is_Some (m !! k).
Proof.
  unfold RangeOrder. intros ->. rewrite list_elem_of_fmap. split.
  - intros ([k' v] & -> & Hkv). apply elem_of_map_to_list in Hkv. by eexists.
  - intros [v Hv]. exists (k, v). split; [done|]. by apply elem_of_map_to_list.
Qed.

Lemma rangeRoutes_Some routes order route config :
  rangeRoutes path_Match routes order route = Some config →
  ∃ k, k ∈ order ∧ routes !! k = Some config ∧ MatchRoute path_Match route k = true.
Proof.
  induction order as [|k order IH]; [done|]. cbn [rangeRoutes].
  destruct (routes !! k) as [c|] eqn:Hk.
  - destruct (MatchRoute path_Match route k) eqn:Hmatch.
    + intros [= <-]. exists k. split; [apply list_elem_of_here|done].
    + intros H. destruct (IH H) as (k' & Hin & Hrest). exists k'.
      split; [by apply list_elem_of_further|done].
  - intros H. destruct (IH H) as (k' & Hin & Hrest). exists k'.
    split; [by apply list_elem_of_further|done].
Qed.

Lemma rangeRoutes_None routes order route :
  rangeRoutes path_Match routes order route = None →
  ∀ k config, k ∈ order → routes !! k = Some config →
    MatchRoute path_Match route k = false.
Proof.
  induction order as [|k order IH]; intros Hnone k' config Hin Hk'.
  { by apply elem_of_nil in Hin. }
  cbn [rangeRoutes] in Hnone. apply elem_of_cons in Hin as [->|Hin].
  - rewrite Hk' in Hnone. by destruct (MatchRoute path_Match route k).
  - destruct (routes !! k); [destruct (MatchRoute path_Match route k); [done|]|];
      by eapply IH.
Qed.

(** X6.  With the patterns visited in any order, a request that some
    configured pattern matches gets the policy of a pattern that matches
    it, and a request that no pattern matches gets the global policy. *)
Theorem GetRouteConfig_matching (cc : ComputedRouteConfigs) (order : list string)
    (route : string) :
  RangeOrder (Routes cc) order →
  ((∃ k config, Routes cc !! k = Some config ∧ MatchRoute path_Match route k = true) →
   ∃ k, Routes cc !! k = Some (GetRouteConfig path_Match cc order route)
        ∧ MatchRoute path_Match route k = true)
  ∧ ((∀ k config, Routes cc !! k = Some config → MatchRoute path_Match route k = false) →
     GetRouteConfig path_Match cc order route = Global cc).
Proof.
  intros Horder. unfold GetRouteConfig. split.
  - intros (k & config & Hk & Hmatch).
    destruct (Routes cc !! route) as [exact|] eqn:Hexact.
    { exists route. split; [done|apply MatchRoute_refl]. }
    destruct (rangeRoutes path_Match (Routes cc) order route) as [found|] eqn:Hrange.
    + destruct (rangeRoutes_Some _ _ _ _ Hrange) as (k' & _ & Hk' & Hmatch').
      by exists k'.
    + assert (k ∈ order) as Hin by (apply (RangeOrder_elem_of _ _ _ Horder); by eexists).
      by rewrite (rangeRoutes_None _ _ _ Hrange k config Hin Hk) in Hmatch.
  - intros Hnone.
    destruct (Routes cc !! route) as [exact|] eqn:Hexact.
    { pose proof (MatchRoute_refl route) as Hrefl.
      by rewrite (Hnone route exact Hexact) in Hrefl. }
    destruct (rangeRoutes path_Match (Routes cc) order route) as [found|] eqn:Hrange;
      [|done].
    destruct (rangeRoutes_Some _ _ _ _ Hrange) as (k' & _ & Hk' & Hmatch').
    by rewrite (Hnone k' found Hk') in Hmatch'.
Qed.

(** X7.  A request that exactly one configured pattern matches gets the
    policy of that pattern in every run, whatever the visiting order. *)
Theorem GetRouteConfig_unique_match (cc : ComputedRouteConfigs) (order : list string)
    (route k : string) (config : ComputedRouteConfig) :
  RangeOrder (Routes cc) order →
  Routes cc !! k = Some config →
  MatchRoute path_Match route k = true →
  (∀ k' config', Routes cc !! k' = Some config' →
     MatchRoute path_Match route k' = true → k' = k) →
  GetRouteConfig path_Match cc order route = config.
Proof.
  intros Horder Hk Hmatch Hunique.
  destruct (GetRouteConfig_matching cc order route Horder) as [Hsome _].
  destruct Hsome as (k' & Hk' & Hmatch'); [by eauto|].
  rewrite (Hunique k' _ Hk' Hmatch') in Hk'. congruence.
Qed.

Lemma skipRoutes_from (routes : list string) (m : gmap string bool) (k : string) :
  foldl (λ m skipRoute, <[skipRoute := true]> m) m routes !! k
  = if decide (k ∈ routes) then Some true else m !! k.
Proof.
  revert m. induction routes as [|r rest IH]; intros m; simpl.
  - destruct (decide (k ∈ [])) as [Hin|_]; [by apply elem_of_nil in Hin|done].
  - rewrite IH. destruct (decide (k ∈ rest)) as [Hin|Hnin].
    + rewrite decide_True; [done|]. apply elem_of_cons. by right.
    + destruct (decide (k = r)) as [->|Hne].
      * rewrite decide_True; [|apply elem_of_cons; by left].
        by rewrite lookup_insert_eq.
      * rewrite decide_False; [by rewrite lookup_insert_ne|].
        intros [?|?]%elem_of_cons; done.
Qed.

Lemma SkipRoutes_Precompute c k :
  SkipRoutes (PrecomputeRouteConfigs c) !! k
  = if decide (k ∈ cfg_SkipRoutes c) then Some true else None.
Proof.
  unfold PrecomputeRouteConfigs. cbn [SkipRoutes]. rewrite skipRoutes_from.
  by rewrite lookup_empty.
Qed.

Lemma rangeSkipRoutes_true skips order route :
  rangeSkipRoutes path_Match skips order route = true
  ↔ ∃ k, k ∈ order ∧ is_Some (skips !! k) ∧ MatchRoute path_Match route k = true.
Proof.
  induction order as [|k order IH]; cbn [rangeSkipRoutes].
  { split; [done|]. intros (k & Hin & _). by apply elem_of_nil in Hin. }
  split.
  - destruct (skips !! k) as [b|] eqn:Hk.
    + destruct (MatchRoute path_Match route k) eqn:Hmatch.
      * intros _. exists k. split; [apply list_elem_of_here|]. split; [by eexists|done].
      * intros (k' & Hin & Hrest)%IH. exists k'.
        split; [by apply list_elem_of_further|done].
    + intros (k' & Hin & Hrest)%IH. exists k'.
      split; [by apply list_elem_of_further|done].
  - intros (k' & Hin & [b Hk'] & Hmatch). apply elem_of_cons in Hin as [->|Hin].
    + by rewrite Hk', Hmatch.
    + assert (rangeSkipRoutes path_Match skips order route = true) as Hrest.
      { apply IH. exists k'. split; [done|]. split; [by eexists|done]. }
      destruct (skips !! k); [destruct (MatchRoute path_Match route k)|]; done.
Qed.

(** X8.  After precomputation, a route is skipped exactly when one of the
    configured [skip_routes] matches it; the answer does not depend on the
    order in which the map of skip routes is visited. *)
Theorem IsRouteSkipped_configured (c : HTTPConfig) (order : list string)
    (route : string) :
  RangeOrder (SkipRoutes (PrecomputeRouteConfigs c)) order →
  IsRouteSkipped path_Match (PrecomputeRouteConfigs c) order route
  = existsb (MatchRoute path_Match route) (cfg_SkipRoutes c).
Proof.
  intros Horder. apply Bool.eq_iff_eq_true.
  rewrite existsb_exists. unfold IsRouteSkipped. split.
  - rewrite SkipRoutes_Precompute.
    destruct (decide (route ∈ cfg_SkipRoutes c)) as [Hin|_]; cbn [default].
    { intros _. exists route. split; [by apply list_elem_of_In|apply MatchRoute_refl]. }
    intros (k & _ & [b Hk] & Hmatch)%rangeSkipRoutes_true.
    rewrite SkipRoutes_Precompute in Hk. exists k. split; [|done].
    apply list_elem_of_In. by destruct (decide (k ∈ cfg_SkipRoutes c)).
  - intros (k & Hin%list_elem_of_In & Hmatch).
    destruct (default false (SkipRoutes (PrecomputeRouteConfigs c) !! route)); [done|].
    apply rangeSkipRoutes_true. exists k.
    assert (is_Some (SkipRoutes (PrecomputeRouteConfigs c) !! k)) as Hsome.
    { rewrite SkipRoutes_Precompute, decide_True by done. by eexists. }
    split; [by apply (RangeOrder_elem_of _ _ _ Horder)|done].
Qed.

(** X9.  A route listed in [route_configs] with no field set gets the
    global policy, also when a pattern with overrides matches it. *)
Theorem GetRouteConfig_empty_override (c : HTTPConfig) (order : list string)
    (route : string) :
  cfg_RouteConfigs c !! route
  = Some {| rc_CompareHeaders := EmptyString; rc_CompareBody := EmptyString;
            rc_SkipHeaders := []; rc_StoreReqBody := EmptyString;
            rc_StoreRespBodies := EmptyString; rc_SkipJSONPaths := [];
            rc_TestProbability := 0 |} →
  GetRouteConfig path_Match (PrecomputeRouteConfigs c) order route
  = Global (PrecomputeRouteConfigs c).
Proof.
  intros Hroute. unfold GetRouteConfig, PrecomputeRouteConfigs. cbn [Routes Global].
  by rewrite lookup_fmap, Hroute.
Qed.

End Lookup.

Section LookupWitnesses.
Import GoStrings Config Spec Examples Startup.

Lemma specificFirst_order :
  RangeOrder (Routes (PrecomputeRouteConfigs (loaded specificFirst)))
    ["GET:/u/*"; "GET:/u/*/p"].
Proof. unfold RangeOrder. vm_compute. apply perm_swap. Qed.

Lemma GetRouteConfig_matching_witness :
  RangeOrder (Routes (PrecomputeRouteConfigs (loaded specificFirst)))
    ["GET:/u/*"; "GET:/u/*/p"]
  ∧ GetRouteConfig (λ _ _, false) (PrecomputeRouteConfigs (loaded specificFirst))
      ["GET:/u/*"; "GET:/u/*/p"] "GET:/other"
    = Global (PrecomputeRouteConfigs (loaded specificFirst)).
Proof.
  split; [exact specificFirst_order|].
  apply (GetRouteConfig_matching (λ _ _, false)
           (PrecomputeRouteConfigs (loaded specificFirst))
           ["GET:/u/*"; "GET:/u/*/p"] "GET:/other" specificFirst_order).
  intros k config Hk.
  assert (k ∈ ["GET:/u/*"; "GET:/u/*/p"]) as Hin.
  { apply (RangeOrder_elem_of _ _ _ specificFirst_order). by eexists. }
  apply elem_of_cons in Hin as [->|Hin]; [reflexivity|].
  apply list_elem_of_singleton in Hin as ->. reflexivity.
Defined.

Lemma GetRouteConfig_unique_match_witness :
  GetRouteConfig (λ _ _, false) (PrecomputeRouteConfigs (loaded specificFirst))
    ["GET:/u/*"; "GET:/u/*/p"] "GET:/u/42/x"
  = policyWithProbability 10.
Proof.
  apply (GetRouteConfig_unique_match (λ _ _, false)
           (PrecomputeRouteConfigs (loaded specificFirst))
           ["GET:/u/*"; "GET:/u/*/p"] "GET:/u/42/x" "GET:/u/*"
           (policyWithProbability 10) specificFirst_order);
    [reflexivity|reflexivity|].
  intros k config Hk Hmatch.
  assert (k ∈ ["GET:/u/*"; "GET:/u/*/p"]) as Hin.
  { apply (RangeOrder_elem_of _ _ _ specificFirst_order). by eexists. }
  apply elem_of_cons in Hin as [->|Hin]; [reflexivity|].
  apply list_elem_of_singleton in Hin as ->. by vm_compute in Hmatch.
Defined.

Lemma IsRouteSkipped_configured_witness :
  IsRouteSkipped (λ _ _, false) (PrecomputeRouteConfigs testConfig)
    ["*:/metrics"; "GET:/health"] "POST:/metrics"
  = existsb (MatchRoute (λ _ _, false) "POST:/metrics") (cfg_SkipRoutes testConfig).
Proof.
  apply (IsRouteSkipped_configured (λ _ _, false) testConfig
           ["*:/metrics"; "GET:/health"] "POST:/metrics").
  unfold RangeOrder. vm_compute. apply perm_swap.
Defined.

Lemma GetRouteConfig_empty_override_witness :
  GetRouteConfig (λ _ _, false)
    (PrecomputeRouteConfigs
       (loaded [("GET:/u/*", withProbability 10); ("GET:/u/me", withProbability 0)]))
    ["GET:/u/*"; "GET:/u/me"] "GET:/u/me"
  = Global (PrecomputeRouteConfigs
              (loaded [("GET:/u/*", withProbability 10); ("GET:/u/me", withProbability 0)])).
Proof.
  apply (GetRouteConfig_empty_override (λ _ _, false)
           (loaded [("GET:/u/*", withProbability 10); ("GET:/u/me", withProbability 0)])
           ["GET:/u/*"; "GET:/u/me"] "GET:/u/me").
  reflexivity.
Defined.

End LookupWitnesses.

(* ===================================================================== *)
(** * Loading the configuration *)
(* ===================================================================== *)

Section Loading.
Import GoStrings Config Spec Examples Startup Observations.

Lemma validatePatterns_None routes :
  validatePatterns routes = None
  ↔ ∀ route, route ∈ routes → isValidRoutePattern (ParseRoute route).2 = true.
Proof.
  induction routes as [|r rest IH]; cbn [validatePatterns].
  { split; [|done]. intros _ route Hin. by apply elem_of_nil in Hin. }
  destruct (isValidRoutePattern (ParseRoute r).2) eqn:Hr; cbn [negb].
  - rewrite IH. split.
    + intros Hrest route [->|Hin]%elem_of_cons; auto.
    + intros Hall route Hin. apply Hall. by apply list_elem_of_further.
  - split; [done|]. intros Hall. rewrite (Hall r) in Hr; [done|apply list_elem_of_here].
Qed.

Lemma validatePatterns_Some routes route :
  validatePatterns routes = Some route →
  route ∈ routes ∧ isValidRoutePattern (ParseRoute route).2 = false.
Proof.
  induction routes as [|r rest IH]; [done|]. cbn [validatePatterns].
  destruct (isValidRoutePattern (ParseRoute r).2) eqn:Hr; cbn [negb].
  - intros [Hin Hbad]%IH. split; [by apply list_elem_of_further|done].
  - intros [= <-]. split; [apply list_elem_of_here|done].
Qed.

Lemma elem_of_routeConfigKeys (routeConfigs : gmap string RouteConfig) order k :
  k ∈ routeConfigKeys routeConfigs order ↔ k ∈ order ∧ is_Some (routeConfigs !! k).
Proof.
  induction order as [|r rest IH]; cbn [routeConfigKeys].
  { rewrite !elem_of_nil. tauto. }
  destruct (routeConfigs !! r) as [rc|] eqn:Hr.
  - rewrite !elem_of_cons, IH. split.
    + intros [->|[? ?]]; [split; [by left|by eexists]|by auto].
    + intros [[->|?] ?]; auto.
  - rewrite elem_of_cons, IH. split.
    + intros [? ?]; auto.
    + intros [[->|?] Hsome]; [|done]. rewrite Hr in Hsome. by destruct Hsome.
Qed.

(** X10.  Loading stops with a fatal error exactly on a skip route or a
    route-config key whose path is not a valid pattern, and names such a
    route; otherwise the computed tables hold valid patterns only, under
    the keys of the configuration, with the migrated global policy. *)
Theorem LoadHTTP_validates (legacy : LegacyFields) (c : HTTPConfig)
    (order : list string) :
  RangeOrder (cfg_RouteConfigs c) order →
  match LoadHTTP legacy c order with
  | Fatal _ route =>
      (route ∈ cfg_SkipRoutes c ∨ is_Some (cfg_RouteConfigs c !! route))
      ∧ isValidRoutePattern (ParseRoute route).2 = false
  | Loaded c' computed =>
      (∀ k, is_Some (Routes computed !! k) ∨ is_Some (SkipRoutes computed !! k) →
         isValidRoutePattern (ParseRoute k).2 = true)
      ∧ (∀ k, is_Some (Routes computed !! k) ↔ is_Some (cfg_RouteConfigs c !! k))
      ∧ Global computed
        = computeGlobal (migrateFromLegacyConfig legacy (cfg_GlobalConfig c))
  end.
Proof.
  intros Horder. unfold LoadHTTP, validateRoutePatterns.
  cbn [cfg_SkipRoutes cfg_RouteConfigs].
  destruct (validatePatterns (cfg_SkipRoutes c)) as [bad|] eqn:Hskip.
  { apply validatePatterns_Some in Hskip as [Hin Hbad]. by auto. }
  destruct (validatePatterns (routeConfigKeys (cfg_RouteConfigs c) order))
    as [bad|] eqn:Hkeys.
  { apply validatePatterns_Some in Hkeys as [Hin Hbad].
    apply elem_of_routeConfigKeys in Hin as [_ Hsome]. by auto. }
  rewrite validatePatterns_None in Hskip, Hkeys.
  assert (∀ k, is_Some (Routes (PrecomputeRouteConfigs
             {| cfg_GlobalConfig := migrateFromLegacyConfig legacy (cfg_GlobalConfig c);
                cfg_RouteConfigs := cfg_RouteConfigs c;
                cfg_SkipRoutes := cfg_SkipRoutes c |}) !! k)
            ↔ is_Some (cfg_RouteConfigs c !! k)) as Hdom.
  { intros k. unfold PrecomputeRouteConfigs. cbn [Routes cfg_RouteConfigs].
    by rewrite lookup_fmap, fmap_is_Some. }
  split; [|split; [exact Hdom|done]].
  intros k [Hk|Hk].
  - apply Hkeys, elem_of_routeConfigKeys. apply Hdom in Hk.
    split; [by apply (RangeOrder_elem_of _ _ _ Horder)|done].
  - apply Hskip. rewrite SkipRoutes_Precompute in Hk. cbn [cfg_SkipRoutes] in Hk.
    destruct (decide (k ∈ cfg_SkipRoutes c)); [done|by destruct Hk].
Qed.

Lemma LoadHTTP_validates_witness :
  match LoadHTTP defaultHTTP_Legacy testConfig ["POST:/api/users"; "GET:/api/orders/*"] with
  | Fatal _ _ => False
  | Loaded _ computed =>
      ∀ k, is_Some (Routes computed !! k) ∨ is_Some (SkipRoutes computed !! k) →
        isValidRoutePattern (ParseRoute k).2 = true
  end.
Proof.
  assert (RangeOrder (cfg_RouteConfigs testConfig)
            ["POST:/api/users"; "GET:/api/orders/*"]) as Horder.
  { unfold RangeOrder. vm_compute. apply perm_swap. }
  pose proof (LoadHTTP_validates defaultHTTP_Legacy testConfig
                ["POST:/api/users"; "GET:/api/orders/*"] Horder) as Hload.
  destruct (LoadHTTP defaultHTTP_Legacy testConfig
              ["POST:/api/users"; "GET:/api/orders/*"]) as [context route|c' computed] eqn:Hres.
  - by vm_compute in Hres.
  - exact (proj1 Hload).
Defined.

Lemma migrate_stays_or_leaves_default (legacy : LegacyFields) (g : GlobalConfig) :
  migrateFromLegacyConfig legacy g = g
  ∨ globalConfigIsDefault (migrateFromLegacyConfig legacy g) = false.
Proof.
  unfold migrateFromLegacyConfig.
  destruct (globalConfigIsDefault g) eqn:Hdef; cbn [negb]; [|by left].
  destruct g as [ch cb sh srq srb sjp tp], legacy as [lp ltp llrp lch].
  unfold globalConfigIsDefault in *. cbn in Hdef |- *.
  destruct ch, srq, srb, sjp; cbn in Hdef;
    rewrite ?andb_false_r, ?andb_true_r in Hdef; try done.
  apply Z.eqb_eq in Hdef as ->.
  destruct lch, llrp; cbn; destruct (ltp =? 0) eqn:H0; cbn;
    destruct (ltp =? 100) eqn:H100; cbn; destruct lp; cbn;
    rewrite ?H100, ?andb_false_r; auto.
Qed.

(** X11.  Migrating the legacy fields a second time changes nothing, with
    the same or with other legacy values: once a legacy value was taken
    over, the global configuration no longer counts as default. *)
Theorem migrateFromLegacyConfig_once (legacy legacy' : LegacyFields) (g : GlobalConfig) :
  migrateFromLegacyConfig legacy (migrateFromLegacyConfig legacy g)
  = migrateFromLegacyConfig legacy g
  ∧ (migrateFromLegacyConfig legacy g ≠ g →
     migrateFromLegacyConfig legacy' (migrateFromLegacyConfig legacy g)
     = migrateFromLegacyConfig legacy g).
Proof.
  destruct (migrate_stays_or_leaves_default legacy g) as [Hsame|Hleft].
  - split; [by rewrite !Hsame|]. by intros [].
  - split; [|intros _]; unfold migrateFromLegacyConfig at 1; by rewrite Hleft.
Qed.

(** The model agrees with the repository's table of expected results. *)
Example TestMigrateFromLegacyConfig_cases :
  Forall (λ case, migrateFromLegacyConfig case.1 testedGlobal = case.2) migrationCases.
Proof. unfold migrationCases. repeat (constructor; [reflexivity|]). constructor. Qed.

End Loading.

(* ===================================================================== *)
(** * The logger *)
(* ===================================================================== *)

Section LogLevels.
Import GoStrings Logging.

Lemma lower_upper_byte c : lower_byte (upper_byte c) = lower_byte c.
Proof. by destruct c as [[] [] [] [] [] [] [] []]. Qed.

Lemma ToLower_ToUpper s : ToLower (ToUpper s) = ToLower s.
Proof. induction s as [|c s IH]; [done|]. simpl. by rewrite lower_upper_byte, IH. Qed.

(** X12.  The letter case of the level name does not matter, and an
    initialisation that reports an error leaves the logger as it was. *)
Theorem InitializeLogger_case_and_failure (L : Level) (logLevel : string)
    (buildOk : bool) :
  InitializeLogger L (ToUpper logLevel) buildOk = InitializeLogger L logLevel buildOk
  ∧ ((InitializeLogger L logLevel buildOk).2 = true →
     (InitializeLogger L logLevel buildOk).1 = L).
Proof.
  unfold InitializeLogger, parseLogLevel. rewrite ToLower_ToUpper. split; [done|].
  repeat (match goal with |- context [if ?b then _ else _] => destruct b end;
          cbn [fst snd]; try done).
Qed.

End LogLevels.

(* ===================================================================== *)
(** * The sampler and the request handler *)
(* ===================================================================== *)

Section Sampler.
Import GoStrings Config Storage Main Spec Examples Observations.

Lemma inBucket_uint64 n p :
  1 ≤ p < uint64_modulus → inBucket n p = (n mod 100 <? p - 1).
Proof.
  intros Hp. unfold inBucket. by rewrite (Z.mod_small (p - 1)) by lia.
Qed.

Lemma inBucket_period n p : inBucket (n + 100) p = inBucket n p.
Proof.
  unfold inBucket. replace (n + 100) with (n + 1 * 100) by lia.
  by rewrite Z.mod_add.
Qed.

Lemma AddUint64_small k : 0 ≤ k → k + 1 < uint64_modulus → AddUint64 k 1 = k + 1.
Proof. intros Hk Hlt. unfold AddUint64. apply Z.mod_small. lia. Qed.

Lemma countAdmitted_snoc p k len :
  0 ≤ k → k + Z.of_nat len < uint64_modulus →
  countAdmitted p k (S len)
  = (countAdmitted p k len + (if inBucket (k + Z.of_nat len) p then 1 else 0))%nat.
Proof.
  revert k. induction len as [|len IH]; intros k Hk Hlt.
  - cbn [countAdmitted]. rewrite Z.add_0_r. lia.
  - change (countAdmitted p k (S (S len)))
      with ((if inBucket k p then 1 else 0)
            + countAdmitted p (AddUint64 k 1) (S len))%nat.
    rewrite AddUint64_small by lia. rewrite IH by lia. cbn [countAdmitted].
    rewrite AddUint64_small by lia.
    replace (k + 1 + Z.of_nat len) with (k + Z.of_nat (S len)) by lia. lia.
Qed.

Lemma countAdmitted_shift p k :
  0 ≤ k → k + 100 < uint64_modulus →
  countAdmitted p (k + 1) 100 = countAdmitted p k 100.
Proof.
  intros Hk Hlt. rewrite (countAdmitted_snoc p (k + 1) 99) by lia.
  change (countAdmitted p k 100)
    with ((if inBucket k p then 1 else 0) + countAdmitted p (AddUint64 k 1) 99)%nat.
  rewrite AddUint64_small by lia.
  replace (k + 1 + Z.of_nat 99) with (k + 100) by lia.
  rewrite inBucket_period. lia.
Qed.

Lemma countAdmitted_from_zero p (len : nat) :
  1 ≤ p < uint64_modulus → (len ≤ 100)%nat →
  countAdmitted p 0 len = Nat.min len (Z.to_nat (p - 1)).
Proof.
  intros Hp. induction len as [|len IH]; intros Hlen; [done|].
  rewrite countAdmitted_snoc by (unfold uint64_modulus; lia).
  rewrite IH by lia. rewrite inBucket_uint64 by done.
  rewrite Z.add_0_l, Z.mod_small by lia.
  destruct (Z.ltb_spec (Z.of_nat len) (p - 1)); lia.
Qed.

(** X13.  For a test probability [p] from 1 up, of any 100 requests in a
    row during which the 64-bit counter does not wrap, the sampler admits
    [p - 1], and all 100 once [p] exceeds 100. *)
Theorem sampler_density (p k : Z) :
  1 ≤ p < uint64_modulus → 0 ≤ k → k + 100 ≤ uint64_modulus →
  countAdmitted p k 100 = Nat.min 100 (Z.to_nat (p - 1)).
Proof.
  intros Hp Hk. rewrite <- (countAdmitted_from_zero p 100 Hp) by lia.
  revert k Hk. apply (natlike_ind (λ k, k + 100 ≤ uint64_modulus →
    countAdmitted p k 100 = countAdmitted p 0 100)); [done|].
  intros k Hk IH Hlt. rewrite <- Z.add_1_r, countAdmitted_shift by lia.
  apply IH. lia.
Qed.

Lemma sampler_density_witness : countAdmitted 50 1234 100 = 49%nat.
Proof.
  refine (sampler_density 50 1234 _ _ _); [by vm_compute|lia|by vm_compute].
Defined.

End Sampler.

Section HandlerRuns.
Import GoStrings Config Storage Main Spec Examples Observations.

Variable path_Match : string → string → bool.
Variable ComputedConfigs : ComputedRouteConfigs.

(** X14.  A request on a skipped route is served without touching the
    sampler or the queue: the handler returns, with the request counter
    and the job queue as they were, whatever the upstream does. *)
Theorem handle_skipped_route (s : server) (hw : HandleWorld) (writer : ResponseWriter)
    (req : Request) :
  IsRouteSkipped path_Match ComputedConfigs (hw_skipOrder hw)
    (FormatRoute (req_Method req) (req_Path req)) = true →
  ∃ writer' evs,
    handle path_Match ComputedConfigs s hw writer req = Returned writer' s evs.
Proof.
  intros Hskip. unfold handle. rewrite Hskip. unfold handleSkipped.
  destruct (hw_newRequestOk hw); cbn [negb]; [|by eauto].
  destruct (hw_mainDo hw); by eauto.
Qed.

(** X15.  When the request body is read, the main upstream answers, its
    body is read and the write of the body succeeds, the calls the
    handler has made on the response writer are those that pass the main
    response on: the headers copied, [WriteHeader] with the status of the
    main response, and the body written.  That is the state of the
    writer on a skipped route or not, sampled or not, when the handler
    returns and also when it stays parked in the send to a full queue
    (where it has not returned, and nothing says the bytes have left the
    server). *)
Theorem handle_writes_main_response (s : server) (hw : HandleWorld) (writer : ResponseWriter)
    (req : Request) (reqBody : string) (mainRes : Response) (mainResBody : string) :
  req_Body req = ReadOk reqBody →
  hw_newRequestOk hw = true →
  hw_mainDo hw = Some mainRes →
  resp_Body mainRes = ReadOk mainResBody →
  hw_clientWriteOk hw = true →
  outcomeWriter (handle path_Match ComputedConfigs s hw writer req)
  = Write (WriteHeader (copyHeaders writer (resp_Header mainRes)) (StatusCode mainRes))
      mainResBody.
Proof.
  intros Hreq Hnew Hmain Hbody Hwrite. unfold handle, handleSkipped, enqueue.
  rewrite Hreq, Hnew, Hmain, Hbody, Hwrite. cbn [negb bytesRead].
  destruct (IsRouteSkipped _ _ _ _); [done|].
  destruct (inBucket _ _); [|done].
  by destruct (chansend _ _).
Qed.

Lemma chansend_bounds (c c' : Chan) (pending : upstreamTestJob) :
  (length (ch_buf c) ≤ ch_cap c)%nat →
  chansend c pending = Some c' →
  (length (ch_buf c') ≤ ch_cap c')%nat
  ∧ ch_cap c' = ch_cap c
  ∧ (ch_buf c' = ch_buf c ∨ ch_buf c' = ch_buf c ++ [pending]).
Proof.
  intros Hbound. unfold chansend.
  destruct (0 <? ch_recvq c)%nat; [intros [= <-]; by auto|].
  destruct (Nat.ltb_spec (length (ch_buf c)) (ch_cap c)); [|done].
  intros [= <-]. cbn [ch_buf ch_cap]. rewrite length_app. simpl.
  split; [lia|by auto].
Qed.

(** X16.  A run of the handler keeps the queue within its capacity, keeps
    the jobs already queued in their order, adds at most one job, and
    moves the request counter by at most one step. *)
Theorem handle_queue_bounds (s : server) (hw : HandleWorld) (writer : ResponseWriter)
    (req : Request) :
  (length (ch_buf (job s)) ≤ ch_cap (job s))%nat →
  let s' := outcomeServer (handle path_Match ComputedConfigs s hw writer req) in
  (length (ch_buf (job s')) ≤ ch_cap (job s'))%nat
  ∧ ch_cap (job s') = ch_cap (job s)
  ∧ (ch_buf (job s') = ch_buf (job s)
     ∨ ∃ queued, ch_buf (job s') = ch_buf (job s) ++ [queued])
  ∧ (reqCounter s' = reqCounter s ∨ reqCounter s' = AddUint64 (reqCounter s) 1).
Proof.
  intros Hbound.
  assert (∀ counter,
            counter = reqCounter s ∨ counter = AddUint64 (reqCounter s) 1 →
            (length (ch_buf (job s)) ≤ ch_cap (job s))%nat
            ∧ ch_cap (job s) = ch_cap (job s)
            ∧ (ch_buf (job s) = ch_buf (job s)
               ∨ ∃ queued, ch_buf (job s) = ch_buf (job s) ++ [queued])
            ∧ (counter = reqCounter s ∨ counter = AddUint64 (reqCounter s) 1))
    as Hsame by (by auto).
  unfold handle, handleSkipped.
  destruct (IsRouteSkipped _ _ _ _).
  { destruct (hw_newRequestOk hw); cbn [negb]; [|by apply Hsame; left].
    destruct (hw_mainDo hw); by apply Hsame; left. }
  destruct (req_Body req); [|by apply Hsame; left].
  destruct (hw_newRequestOk hw); cbn [negb]; [|by apply Hsame; left].
  destruct (hw_mainDo hw) as [mainRes|]; [|by apply Hsame; left].
  destruct (resp_Body mainRes); [|by apply Hsame; left].
  destruct (hw_clientWriteOk hw); cbn [negb]; [|by apply Hsame; left].
  cbn [reqCounter job].
  destruct (inBucket _ _); [|by apply Hsame; right].
  unfold enqueue. cbn [job reqCounter].
  destruct (chansend (job s) _) as [ch|] eqn:Hsend; [|by apply Hsame; right].
  cbn [outcomeServer job reqCounter].
  destruct (chansend_bounds _ _ _ Hbound Hsend) as (Hlen & Hcap & Hbuf).
  split; [done|]. split; [done|]. split; [|by right].
  destruct Hbuf as [->| ->]; by eauto.
Qed.

End HandlerRuns.

Section HandlerWitnesses.
Import GoStrings Config Storage Main Spec Examples Observations.

Lemma handle_queue_bounds_witness :
  let s' := outcomeServer (handle (λ _ _, false) globalOnly busyServer allCallsSucceed
                             emptyWriter exampleRequest) in
  (length (ch_buf (job s')) ≤ ch_cap (job s'))%nat
  ∧ ch_cap (job s') = ch_cap (job busyServer)
  ∧ (ch_buf (job s') = ch_buf (job busyServer)
     ∨ ∃ queued, ch_buf (job s') = ch_buf (job busyServer) ++ [queued])
  ∧ (reqCounter s' = reqCounter busyServer
     ∨ reqCounter s' = AddUint64 (reqCounter busyServer) 1).
Proof.
  apply (handle_queue_bounds (λ _ _, false) globalOnly busyServer allCallsSucceed
           emptyWriter exampleRequest).
  simpl. lia.
Defined.

Lemma handle_skipped_route_witness :
  ∃ writer' evs,
    handle (λ _ _, false) (PrecomputeRouteConfigs testConfig) busyServer
      allCallsSucceed emptyWriter
      {| req_Method := "GET"; req_Path := "/health"; req_URL := "/health";
         req_Header := ∅; req_Body := ReadOk EmptyString |}
    = Returned writer' busyServer evs.
Proof.
  apply (handle_skipped_route (λ _ _, false) (PrecomputeRouteConfigs testConfig)
           busyServer allCallsSucceed emptyWriter).
  by vm_compute.
Defined.

Lemma handle_writes_main_response_witness :
  outcomeWriter (handle (λ _ _, false) globalOnly busyServer allCallsSucceed
                   emptyWriter exampleRequest)
  = Write (WriteHeader (copyHeaders emptyWriter (resp_Header mainAnswer))
             (StatusCode mainAnswer)) "{}".
Proof.
  exact (handle_writes_main_response (λ _ _, false) globalOnly busyServer allCallsSucceed
           emptyWriter exampleRequest EmptyString mainAnswer "{}"
           eq_refl eq_refl eq_refl eq_refl eq_refl).
Defined.

End HandlerWitnesses.

(* ===================================================================== *)
(** * The header comparison *)
(* ===================================================================== *)

Section HeaderDifferences.
Import GoStrings Config Storage Main Spec Examples.

Lemma valuesDiffer_false (mainValues testValues : list string) :
  length mainValues = length testValues →
  valuesDiffer mainValues testValues = false ↔ mainValues = testValues.
Proof.
  revert testValues. induction mainValues as [|v vs IH]; intros [|t ts] Hlen;
    simplify_eq/=; [done|].
  destruct (String.eqb_spec v t) as [->|Hne]; cbn [negb].
  - rewrite (IH ts Hlen). split; [by intros ->|by intros [= ->]].
  - split; [done|]. by intros [= ? ?].
Qed.

(** Whether the first loop reports a header of the main response. *)
Lemma main_header_differs (mainValues : list string) (test : option (list string)) :
  match test with
  | None => true
  | Some testValues =>
      if negb (length mainValues =? length testValues)%nat then true
      else valuesDiffer mainValues testValues
  end = true
  ↔ test ≠ Some mainValues.
Proof.
  destruct test as [testValues|]; [|done].
  destruct (Nat.eqb_spec (length mainValues) (length testValues)) as [Hlen|Hlen];
    cbn [negb].
  - destruct (valuesDiffer mainValues testValues) eqn:Hd.
    + split; [|done]. intros _ [= ->]. by rewrite valuesDiffer_same in Hd.
    + apply valuesDiffer_false in Hd as ->; [|done]. split; [done|]. by intros [].
  - split; [|done]. intros _ [= ->]. done.
Qed.

Lemma rangeMainHeaders_acc skip (mainHeaders testHeaders : Header) order acc :
  rangeMainHeaders skip mainHeaders testHeaders order acc
  = acc ++ rangeMainHeaders skip mainHeaders testHeaders order [].
Proof.
  revert acc. induction order as [|key rest IH]; intros acc; cbn [rangeMainHeaders].
  { by rewrite app_nil_r. }
  destruct (mainHeaders !! key) as [mainValues|]; [|done].
  destruct (default false (skip !! ToLower key)); [done|].
  assert (rangeMainHeaders skip mainHeaders testHeaders rest (acc ++ [key])
          = acc ++ rangeMainHeaders skip mainHeaders testHeaders rest ([] ++ [key]))
    as Hkey.
  { rewrite (IH (acc ++ [key])), (IH ([] ++ [key])). by rewrite app_assoc. }
  destruct (testHeaders !! key) as [testValues|]; [|done].
  destruct (negb (length mainValues =? length testValues)%nat); [done|].
  by destruct (valuesDiffer mainValues testValues).
Qed.

Lemma rangeTestHeaders_acc skip (mainHeaders testHeaders : Header) order acc :
  rangeTestHeaders skip mainHeaders testHeaders order acc
  = acc ++ rangeTestHeaders skip mainHeaders testHeaders order [].
Proof.
  revert acc. induction order as [|key rest IH]; intros acc; cbn [rangeTestHeaders].
  { by rewrite app_nil_r. }
  destruct (testHeaders !! key) as [testValues|]; [|done].
  destruct (default false (skip !! ToLower key)); [done|].
  destruct (mainHeaders !! key); [done|].
  rewrite (IH (acc ++ [key])), (IH ([] ++ [key])). by rewrite app_assoc.
Qed.

(** The first loop reports the visited names that are not skipped and
    whose values in the main response are not those in the test response;
    it reports them in visiting order. *)
Lemma rangeMainHeaders_filter skip (mainHeaders testHeaders : Header) order :
  rangeMainHeaders skip mainHeaders testHeaders order []
  = filter (λ key, is_Some (mainHeaders !! key)
                   ∧ default false (skip !! ToLower key) = false
                   ∧ mainHeaders !! key ≠ testHeaders !! key) order.
Proof.
  induction order as [|key rest IH]; [done|]. cbn [rangeMainHeaders].
  destruct (mainHeaders !! key) as [mainValues|] eqn:Hmain.
  2:{ rewrite filter_cons_False; [done|]. rewrite Hmain. by intros [[] _]. }
  destruct (default false (skip !! ToLower key)) eqn:Hskip.
  { rewrite filter_cons_False; [done|]. rewrite Hskip. by intros (_ & ? & _). }
  pose proof (main_header_differs mainValues (testHeaders !! key)) as Hdiff.
  assert (rangeMainHeaders skip mainHeaders testHeaders rest ([] ++ [key])
          = key :: rangeMainHeaders skip mainHeaders testHeaders rest []) as Hkey.
  { by rewrite rangeMainHeaders_acc. }
  destruct (testHeaders !! key) as [testValues|] eqn:Htest.
  - destruct (negb (length mainValues =? length testValues)%nat) eqn:Hlen.
    + rewrite Hkey, IH, filter_cons_True; [done|].
      rewrite Hmain, Hskip, Htest. split; [by eexists|]. split; [done|].
      intros Heq. by apply Hdiff.
    + destruct (valuesDiffer mainValues testValues) eqn:Hd.
      * rewrite Hkey, IH, filter_cons_True; [done|].
        rewrite Hmain, Hskip, Htest. split; [by eexists|]. split; [done|].
        intros Heq. by apply Hdiff.
      * rewrite IH, filter_cons_False; [done|].
        rewrite Hmain, Htest. intros (_ & _ & Hne). apply Hne. symmetry.
        destruct (decide (Some testValues = Some mainValues)) as [|Hne']; [done|].
        by apply Hdiff in Hne'.
  - rewrite Hkey, IH, filter_cons_True; [done|].
    rewrite Hmain, Hskip, Htest. split; [by eexists|done].
Qed.

Lemma rangeTestHeaders_filter skip (mainHeaders testHeaders : Header) order :
  rangeTestHeaders skip mainHeaders testHeaders order []
  = filter (λ key, is_Some (testHeaders !! key)
                   ∧ default false (skip !! ToLower key) = false
                   ∧ mainHeaders !! key = None) order.
Proof.
  induction order as [|key rest IH]; [done|]. cbn [rangeTestHeaders].
  destruct (testHeaders !! key) as [testValues|] eqn:Htest.
  2:{ rewrite filter_cons_False; [done|]. rewrite Htest. by intros [[] _]. }
  destruct (default false (skip !! ToLower key)) eqn:Hskip.
  { rewrite filter_cons_False; [done|]. rewrite Hskip. by intros (_ & ? & _). }
  destruct (mainHeaders !! key) as [mainValues|] eqn:Hmain.
  - rewrite IH, filter_cons_False; [done|]. rewrite Hmain. by intros (_ & _ & ?).
  - rewrite rangeTestHeaders_acc, IH, filter_cons_True; [done|].
    rewrite Htest, Hskip, Hmain. split; [by eexists|done].
Qed.

Lemma skipHeadersMap_skipped (skipHeaders : list string) (k : string) :
  default false (skipHeadersMap skipHeaders !! k) = false
  ↔ k ∉ (ToLower <$> skipHeaders).
Proof.
  unfold skipHeadersMap. rewrite skipHeadersMap_from, lookup_empty.
  by destruct (decide (k ∈ (ToLower <$> skipHeaders))).
Qed.

Lemma RangeOrder_NoDup {V} (m : gmap string V) order : RangeOrder m order → NoDup order.
Proof. unfold RangeOrder. intros ->. apply NoDup_fst_map_to_list. Qed.

(** X17.  For a header name and skip entries made of ASCII bytes: the
    header comparison reports the name exactly when it is not skipped
    (case-insensitively) and the two responses do not have the same
    list of values under it, a header missing on one side included;
    which names are reported does not depend on the visiting orders. *)
Theorem compareHeaders_reports (skipHeaders mainOrder testOrder : list string)
    (mainHeaders testHeaders : Header) (name : string) :
  RangeOrder mainHeaders mainOrder →
  RangeOrder testHeaders testOrder →
  isASCII name = true →
  forallb isASCII skipHeaders = true →
  name ∈ compareHeaders skipHeaders mainOrder testOrder mainHeaders testHeaders
  ↔ (ToLower name ∉ (ToLower <$> skipHeaders))
    ∧ mainHeaders !! name ≠ testHeaders !! name.
Proof.
  intros Hmain Htest _ _. unfold compareHeaders.
  rewrite rangeTestHeaders_acc, rangeMainHeaders_filter, rangeTestHeaders_filter.
  rewrite elem_of_app, !list_elem_of_filter, !skipHeadersMap_skipped.
  rewrite (RangeOrder_elem_of _ _ _ Hmain), (RangeOrder_elem_of _ _ _ Htest).
  split.
  - intros [((_ & Hskip & Hne) & _)|((Hsome & Hskip & Hnone) & _)]; [done|].
    split; [done|]. rewrite Hnone. intros Heq. rewrite <- Heq in Hsome. by destruct Hsome.
  - intros [Hskip Hne].
    destruct (mainHeaders !! name) as [mainValues|] eqn:Hm.
    + left. split; [|by eexists]. split; [by eexists|done].
    + right. destruct (testHeaders !! name) as [testValues|] eqn:Ht; [|done].
      split; [|by eexists]. split; [by eexists|done].
Qed.

(** X18.  The reported names come without repetition, those that the main
    response has first, in the order the main headers were visited, then
    those that only the test response has. *)
Theorem compareHeaders_order (skipHeaders mainOrder testOrder : list string)
    (mainHeaders testHeaders : Header) :
  RangeOrder mainHeaders mainOrder →
  RangeOrder testHeaders testOrder →
  ∃ onMain onlyTest,
    compareHeaders skipHeaders mainOrder testOrder mainHeaders testHeaders
    = onMain ++ onlyTest
    ∧ onMain `sublist_of` mainOrder
    ∧ onlyTest `sublist_of` testOrder
    ∧ (∀ name, name ∈ onlyTest → mainHeaders !! name = None)
    ∧ NoDup (onMain ++ onlyTest).
Proof.
  intros Hmain Htest. unfold compareHeaders.
  rewrite rangeTestHeaders_acc, rangeMainHeaders_filter, rangeTestHeaders_filter.
  eexists _, _. split; [done|]. split; [apply sublist_filter|].
  split; [apply sublist_filter|]. split.
  { intros name (Hp & _)%list_elem_of_filter. by destruct Hp as (_ & _ & ?). }
  apply NoDup_app. split; [|split].
  - apply NoDup_filter. by eapply RangeOrder_NoDup.
  - intros name ((Hsome & _) & _)%list_elem_of_filter ((_ & _ & Hnone) & _)%list_elem_of_filter.
    rewrite Hnone in Hsome. by destruct Hsome.
  - apply NoDup_filter. by eapply RangeOrder_NoDup.
Qed.

End HeaderDifferences.

Section HeaderWitnesses.
Import GoStrings Config Storage Main Spec Examples.

Lemma answerHeaders_orders :
  RangeOrder mainAnswerHeaders ["Date"; "Etag"; "X-Trace"]
  ∧ RangeOrder testAnswerHeaders ["X-Trace"; "Etag"; "Date"].
Proof.
  unfold RangeOrder. split; vm_compute.
  - apply perm_swap.
  - apply (Permutation_cons_append ["Etag"; "Date"] "X-Trace").
Qed.

Lemma compareHeaders_reports_witness :
  "Etag" ∈ compareHeaders skippedHeaders ["Date"; "Etag"; "X-Trace"]
             ["X-Trace"; "Etag"; "Date"] mainAnswerHeaders testAnswerHeaders
  ↔ (ToLower "Etag" ∉ (ToLower <$> skippedHeaders))
    ∧ mainAnswerHeaders !! "Etag" ≠ testAnswerHeaders !! "Etag".
Proof.
  exact (compareHeaders_reports skippedHeaders _ _ mainAnswerHeaders testAnswerHeaders
           "Etag" (proj1 answerHeaders_orders) (proj2 answerHeaders_orders)
           eq_refl eq_refl).
Defined.

Lemma compareHeaders_order_witness :
  ∃ onMain onlyTest,
    compareHeaders skippedHeaders ["Date"; "Etag"; "X-Trace"]
      ["X-Trace"; "Etag"; "Date"] mainAnswerHeaders testAnswerHeaders
    = onMain ++ onlyTest
    ∧ onMain `sublist_of` ["Date"; "Etag"; "X-Trace"]
    ∧ onlyTest `sublist_of` ["X-Trace"; "Etag"; "Date"]
    ∧ (∀ name, name ∈ onlyTest → mainAnswerHeaders !! name = None)
    ∧ NoDup (onMain ++ onlyTest).
Proof.
  exact (compareHeaders_order skippedHeaders _ _ mainAnswerHeaders testAnswerHeaders
           (proj1 answerHeaders_orders) (proj2 answerHeaders_orders)).
Defined.

End HeaderWitnesses.

(* ===================================================================== *)
(** * Runs of the comparison job *)
(* ===================================================================== *)

Section JobRuns.
Import GoStrings Config Json Storage Main Spec Examples Observations.
Variable Unmarshal : string → option json.
Variable sjson_Set : string → string → string → option string.

Lemma verdicts_app evs1 evs2 : verdicts (evs1 ++ evs2) = verdicts evs1 ++ verdicts evs2.
Proof. unfold verdicts. by rewrite omap_app. Qed.

Lemma verdicts_store w l : verdicts (store w l) = [].
Proof. unfold store. by destruct (dw_storeOk w). Qed.

Lemma verdict_agrees j w (b : bool) l :
  ComparisonType l = "body_diff" →
  verdictAgrees j
    (if b then
       [EvLog "info" "Equal body response";
        EvComparisonResults (j_route j) (req_Method (j_req j)) "identical"]
     else
       [EvLog "warn" "NOT equal body response";
        EvComparisonResults (j_route j) (req_Method (j_req j)) "body_diff"]
       ++ store w l).
Proof.
  intros Hkind. destruct b; [done|]. unfold verdictAgrees.
  rewrite verdicts_app, verdicts_store, stored_app, stored_store.
  cbn. split; [done|]. split; [done|]. by eexists.
Qed.

Lemma compareBodies_agrees j w testStatus mainResBody testResBody :
  verdictAgrees j
    (compareBodies Unmarshal sjson_Set j w testStatus mainResBody testResBody).
Proof.
  unfold compareBodies. cbv beta zeta.
  destruct (String.eqb _ "application/json" || String.eqb _ "application/ld+json").
  - destruct (JSONBytesEqual Unmarshal mainResBody testResBody) as [[|]|];
      cbn [negb andb];
      [by apply (verdict_agrees j w true (baseLog j testStatus "body_diff"))| |done].
    destruct (testStatus =? StatusCode (j_mainRes j)).
    + destruct (maskBodies _ _ _ _) as [[srcBodyStr testBodyStr]|]; [|done].
      destruct (JSONBytesEqual Unmarshal srcBodyStr testBodyStr) as [b|]; [|done].
      apply verdict_agrees. by destruct (StoreRespBodies (j_routeConfig j)).
    + apply (verdict_agrees j w false). by destruct (StoreRespBodies (j_routeConfig j)).
  - unfold dummyBytesEqual. rewrite andb_false_r.
    apply verdict_agrees. by destruct (StoreRespBodies (j_routeConfig j)).
Qed.

Lemma verdictAgrees_metrics j a b evs :
  verdicts [a; b] = [] → stored [a; b] = [] →
  verdictAgrees j evs → verdictAgrees j (a :: b :: evs).
Proof.
  unfold verdictAgrees. intros Hv Hs.
  change (a :: b :: evs) with ([a; b] ++ evs).
  by rewrite verdicts_app, stored_app, Hv, Hs.
Qed.

(** X19.  A run of the job increments the comparison metric at most once,
    with the job's route and method; the verdict [identical] comes with
    no record, every other verdict with exactly one record of the same
    comparison type, and a run without a verdict stores nothing. *)
Theorem Do_verdict_matches_record (j : upstreamTestJob) (w : DoWorld) :
  verdictAgrees j (Do Unmarshal sjson_Set j w).
Proof.
  unfold Do.
  destruct (dw_seekReqOk w); [|done].
  destruct (dw_newRequestOk w); [|done].
  destruct (dw_testDo w) as [testRes|]; [|done].
  destruct (dw_seekMainOk w); [|done].
  destruct (dw_readMainOk w); [|done].
  destruct (resp_Body testRes) as [testResBody|]; [|done].
  cbn [negb]. apply verdictAgrees_metrics; [done..|].
  destruct (StatusCode testRes =? StatusCode (j_mainRes j)); cbn [negb].
  - destruct (CompareHeaders (j_routeConfig j) && _).
    + unfold verdictAgrees.
      rewrite verdicts_app, verdicts_store, stored_app, stored_store. cbn.
      split; [done|]. split; [done|]. eexists. split; [done|].
      by destruct (StoreRespBodies (j_routeConfig j)).
    + apply compareBodies_agrees.
  - unfold verdictAgrees.
    rewrite verdicts_app, verdicts_store, stored_app, stored_store. cbn.
    split; [done|]. split; [done|]. eexists. by split.
Qed.

Ltac at_comparison H :=
  destruct H as (Hseek & Hnew & Htest & Hseek' & Hread & Hbody);
  unfold Do; rewrite Hseek, Hnew, Htest, Hseek', Hread, Hbody; cbn [negb].

Lemma verdict_stored j w (b : bool) l :
  stored
    (if b then
       [EvLog "info" "Equal body response";
        EvComparisonResults (j_route j) (req_Method (j_req j)) "identical"]
     else
       [EvLog "warn" "NOT equal body response";
        EvComparisonResults (j_route j) (req_Method (j_req j)) "body_diff"]
       ++ store w l)
  = if b then [] else [l].
Proof. destruct b; [done|]. by rewrite stored_app, stored_store. Qed.

(** The record of the body stage, if there is one. *)
Lemma compareBodies_record j w testStatus mainResBody testResBody :
  stored (compareBodies Unmarshal sjson_Set j w testStatus mainResBody testResBody) = []
  ∨ ∃ m t,
      stored (compareBodies Unmarshal sjson_Set j w testStatus mainResBody testResBody)
      = [if StoreRespBodies (j_routeConfig j)
         then withPayloads (baseLog j testStatus "body_diff") m t
         else baseLog j testStatus "body_diff"]
      ∧ (if jsonContentType (resp_Header (j_mainRes j))
            && (testStatus =? StatusCode (j_mainRes j))
         then maskBodies sjson_Set (SkipJSONPaths (j_routeConfig j))
                mainResBody testResBody
         else Some (mainResBody, testResBody)) = Some (m, t).
Proof.
  unfold compareBodies, jsonContentType. cbv beta zeta.
  destruct (String.eqb _ "application/json" || String.eqb _ "application/ld+json").
  - destruct (JSONBytesEqual Unmarshal mainResBody testResBody) as [[|]|];
      cbn [negb andb]; [by left| |by left].
    destruct (testStatus =? StatusCode (j_mainRes j)).
    + destruct (maskBodies _ _ _ _) as [[srcBodyStr testBodyStr]|]; [|by left].
      destruct (JSONBytesEqual Unmarshal srcBodyStr testBodyStr) as [[|]|];
        [by left| |by left].
      right. exists srcBodyStr, testBodyStr. by rewrite stored_app, stored_store.
    + right. exists mainResBody, testResBody. by rewrite stored_app, stored_store.
  - unfold dummyBytesEqual. rewrite andb_false_r. cbn [andb].
    destruct (String.eqb mainResBody testResBody); [by left|].
    right. exists mainResBody, testResBody. by rewrite stored_app, stored_store.
Qed.

(** The record of a run that got as far as comparing, if there is one. *)
Lemma Do_record j w testRes testResBody :
  reachesComparison w testRes testResBody →
  stored (Do Unmarshal sjson_Set j w) = []
  ∨ stored (Do Unmarshal sjson_Set j w) = [baseLog j (StatusCode testRes) "status_diff"]
  ∨ (∃ names,
       stored (Do Unmarshal sjson_Set j w)
       = [if StoreRespBodies (j_routeConfig j)
          then withPayloads
                 (withDifferentHeaders (baseLog j (StatusCode testRes) "header_diff") names)
                 EmptyString EmptyString
          else withDifferentHeaders (baseLog j (StatusCode testRes) "header_diff") names])
  ∨ (∃ m t,
       stored (Do Unmarshal sjson_Set j w)
       = [if StoreRespBodies (j_routeConfig j)
          then withPayloads (baseLog j (StatusCode testRes) "body_diff") m t
          else baseLog j (StatusCode testRes) "body_diff"]
       ∧ (if jsonContentType (resp_Header (j_mainRes j))
          then maskBodies sjson_Set (SkipJSONPaths (j_routeConfig j))
                 (j_mainResBody j) testResBody
          else Some (j_mainResBody j, testResBody)) = Some (m, t)).
Proof.
  intros Hreach. at_comparison Hreach.
  change (stored (?a :: ?b :: ?c)) with (stored c).
  destruct (Z.eqb_spec (StatusCode testRes) (StatusCode (j_mainRes j))) as [Heq|Hne];
    cbn [negb].
  - destruct (CompareHeaders (j_routeConfig j) && _).
    + right. right. left. eexists. by rewrite stored_app, stored_store.
    + destruct (compareBodies_record j w (StatusCode testRes) (j_mainResBody j)
                  testResBody) as [Hnone|(m & t & Hone & Hmask)]; [by left|].
      right. right. right. exists m, t. split; [done|].
      by rewrite Heq, Z.eqb_refl, andb_true_r in Hmask.
  - right. left. by rewrite stored_app, stored_store.
Qed.

(** X20.  A record identifies the request and the two answers: URL, method,
    route and request headers are the job's, the status codes are those
    of the two responses, and the request body is there exactly when the
    policy stores request bodies. *)
Theorem Do_record_identifies_request (j : upstreamTestJob) (w : DoWorld)
    (testRes : Response) (testResBody : string) :
  reachesComparison w testRes testResBody →
  Forall (λ l,
    URL l = req_URL (j_req j) ∧ Method l = req_Method (j_req j)
    ∧ Route l = j_route j ∧ Headers l = req_Header (j_req j)
    ∧ MainUpstreamStatusCode l = StatusCode (j_mainRes j)
    ∧ TestUpstreamStatusCode l = StatusCode testRes
    ∧ RequestBody l = (if StoreReqBody (j_routeConfig j)
                       then Some (j_reqBodyBuffer j) else None))
    (stored (Do Unmarshal sjson_Set j w)).
Proof.
  intros Hreach.
  destruct (Do_record j w testRes testResBody Hreach)
    as [->|[->|[(names & ->)|(m & t & -> & _)]]];
    [by apply Forall_nil|apply Forall_singleton..];
    by destruct (StoreRespBodies (j_routeConfig j)).
Qed.


(** X22.  A run in which a call fails (seeking a reader, building the
    request, reaching the test upstream, reading a body) gives no
    verdict and no record; it ends in an error line of the log. *)
Theorem Do_failed_call (j : upstreamTestJob) (w : DoWorld) :
  (∀ testRes testResBody, ¬ reachesComparison w testRes testResBody) →
  verdicts (Do Unmarshal sjson_Set j w) = []
  ∧ stored (Do Unmarshal sjson_Set j w) = []
  ∧ endsInErrorLog (Do Unmarshal sjson_Set j w).
Proof.
  intros Hfail. unfold Do, endsInErrorLog.
  destruct (dw_seekReqOk w) eqn:Hseek; [|by eauto].
  destruct (dw_newRequestOk w) eqn:Hnew; [|by eauto].
  destruct (dw_testDo w) as [testRes|] eqn:Htest; [|by eauto].
  destruct (dw_seekMainOk w) eqn:Hseek'; [|by eauto].
  destruct (dw_readMainOk w) eqn:Hread; [|by eauto].
  destruct (resp_Body testRes) as [testResBody|] eqn:Hbody; [|by eauto].
  by destruct (Hfail testRes testResBody).
Qed.


(** X24.  For a JSON content type, a body that the parser rejects ends the
    run without a verdict and without a record, also when the two bodies
    are the same bytes. *)
Theorem Do_unparsable_json (j : upstreamTestJob) (w : DoWorld)
    (testRes : Response) (testResBody : string) :
  reachesComparison w testRes testResBody →
  StatusCode testRes = StatusCode (j_mainRes j) →
  CompareHeaders (j_routeConfig j) = false
  ∨ compareHeaders (SkipHeaders (j_routeConfig j)) (dw_mainHeaderOrder w)
      (dw_testHeaderOrder w) (resp_Header (j_mainRes j)) (resp_Header testRes) = [] →
  jsonContentType (resp_Header (j_mainRes j)) = true →
  Unmarshal (j_mainResBody j) = None ∨ Unmarshal testResBody = None →
  verdicts (Do Unmarshal sjson_Set j w) = []
  ∧ stored (Do Unmarshal sjson_Set j w) = []
  ∧ last (Do Unmarshal sjson_Set j w)
    = Some (EvLog "error" "error in response equality check").
Proof.
  intros Hreach Heq Hhdr Hct Hparse.
  rewrite (Do_body_stage Unmarshal sjson_Set j w testRes testResBody Hreach Heq Hhdr).
  unfold compareBodies, jsonContentType in *. cbv beta zeta. rewrite Hct.
  assert (JSONBytesEqual Unmarshal (j_mainResBody j) testResBody = None) as ->; [|done].
  unfold JSONBytesEqual. destruct Hparse as [->| ->]; [done|].
  by destruct (Unmarshal (j_mainResBody j)).
Qed.




End JobRuns.

Section JobWitnesses.
Import GoStrings Config Json Storage Main Spec Examples Observations.

Lemma testAnswers_reaches (answer : Response) (body : string) :
  resp_Body answer = ReadOk body → reachesComparison (testAnswers answer) answer body.
Proof. intros Hbody. by repeat split. Qed.

Lemma Do_record_identifies_request_witness :
  Forall (λ l,
    URL l = "/a?x=1" ∧ Method l = "GET" ∧ Route l = "GET:/a"
    ∧ Headers l = {[ "Accept" := ["*/*"] ]}
    ∧ MainUpstreamStatusCode l = 200
    ∧ TestUpstreamStatusCode l = 500
    ∧ RequestBody l = Some EmptyString)
    (stored (Do tableUnmarshal tableSet jsonJob
               (testAnswers (jsonAnswer 500 "Mon" mainBodyText)))).
Proof.
  exact (Do_record_identifies_request tableUnmarshal tableSet jsonJob
           (testAnswers (jsonAnswer 500 "Mon" mainBodyText))
           (jsonAnswer 500 "Mon" mainBodyText) mainBodyText
           (testAnswers_reaches (jsonAnswer 500 "Mon" mainBodyText) mainBodyText eq_refl)).
Defined.


Lemma Do_failed_call_witness :
  verdicts (Do tableUnmarshal tableSet jsonJob testUnreachable) = []
  ∧ stored (Do tableUnmarshal tableSet jsonJob testUnreachable) = []
  ∧ endsInErrorLog (Do tableUnmarshal tableSet jsonJob testUnreachable).
Proof.
  apply (Do_failed_call tableUnmarshal tableSet jsonJob testUnreachable).
  intros testRes testResBody (_ & _ & Htest & _). discriminate Htest.
Defined.


Lemma Do_unparsable_json_witness :
  verdicts (Do tableUnmarshal tableSet emptyJob
              (testAnswers (jsonAnswer 204 "Tue" EmptyString))) = []
  ∧ stored (Do tableUnmarshal tableSet emptyJob
              (testAnswers (jsonAnswer 204 "Tue" EmptyString))) = []
  ∧ last (Do tableUnmarshal tableSet emptyJob
            (testAnswers (jsonAnswer 204 "Tue" EmptyString)))
    = Some (EvLog "error" "error in response equality check").
Proof.
  apply (Do_unparsable_json tableUnmarshal tableSet emptyJob
           (testAnswers (jsonAnswer 204 "Tue" EmptyString))
           (jsonAnswer 204 "Tue" EmptyString) EmptyString).
  - by repeat split.
  - reflexivity.
  - right. vm_compute. reflexivity.
  - vm_compute. reflexivity.
  - left. vm_compute. reflexivity.
Defined.


End JobWitnesses.
